(** * Tesla Prometheus exporter: credential manager, API client, sleep tracker

    A shallow embedding of [exporter/tesla_auth.py], [exporter/tesla_client.py]
    and [exporter/sleep_tracker.py], and the properties of the design document
    that concern them.

    Python objects that the code mutates ([TeslaAuth._token_data], the files
    on disk, the clock) live in one explicit program state; everything the
    outside world decides (HTTP answers, failing system calls, the names
    handed out by [mkstemp]) is read from an environment, one answer per call.
    Exceptions are results of their own.  A ghost trace records the calls the
    properties count (refreshes, requests, sleeps, saves).

    Clock readings and JSON numbers are exact integers (whole seconds):
    floating-point rounding is outside the model.  The [json] module, like
    the network and the file system, is part of the environment; the worked
    examples run on the instance [PyJson]. *)

From Stdlib Require Import ZArith Lia Ascii.
From stdpp Require Import base option strings list gmap pretty.

Local Open Scope string_scope.
Local Open Scope Z_scope.

(** ** JSON values and Python dictionaries *)

(** What [json.load] and [Response.json()] produce, as Python values:
    [JNull] is Python's [None].  A [dict] with string keys is a finite map;
    key order never matters to the code. *)
#[warnings="-register-all"]
Inductive json : Type :=
| JNull
| JBool (b : bool)
| JNum (n : Z)
| JStr (s : string)
| JArr (l : list json)
| JObj (m : gmap string json).

Abbreviation dict := (gmap string json).

(** The exceptions that can travel through the modelled code. *)
Inductive exn : Type :=
| OSError
| JSONDecodeError
| RequestException
| KeyError (k : string)
| TypeError
| ValueError
| UnboundLocalError (v : string)
| UnicodeDecodeError
| RecursionError.

(** [x + n] and [x - n] on a JSON value [x]: numbers and (as in Python)
    booleans are arithmetic, everything else is a [TypeError]. *)
Definition as_number (v : json) : option Z :=
  match v with
  | JNum n => Some n
  | JBool b => Some (if b then 1 else 0)
  | _ => None
  end.

(** [d.get(k, default)] *)
Definition dict_get (d : dict) (k : string) (default : json) : json :=
  match d !! k with
  | Some v => v
  | None => default
  end.

(** What [json.load] makes of the content of a file: a JSON value of any
    kind, or an exception.  That is [JSONDecodeError] for a text that is not
    JSON; before the parser gets that far, [UnicodeDecodeError] for bytes
    that are not text in the encoding of the platform; and [RecursionError]
    for a text nested too deep for the interpreter. *)
Inductive parsed : Type :=
| Parsed (v : json)
| ParseRaises (e : exn).

(** ** The outside world *)

(** One answer of an HTTP server, as [requests] presents it. *)
Record response := Response {
  status_code : Z;
  (** [resp.json()]: [None] when the body is not JSON *)
  body : option json;
  (** the [Retry-After] header: absent, or present and then either an
      integer literal or something [int()] rejects *)
  retry_after : option (option Z)
}.

(** One HTTP exchange: how long it took and what came back. *)
Inductive outcome : Type :=
| Answered (r : response)
| NoAnswer.    (* connection error or timeout: [requests.RequestException] *)

Record exchange := Exchange {
  latency : nat;
  result : outcome
}.

(** The system calls on files that the code makes. *)
Inductive sys : Type :=
| Makedirs | Mkstemp | Fdopen | Write | Replace | Unlink | Open.

Record Config := {
  token_file_path : string;
  poll_interval_seconds : Z;
  sleep_poll_interval_seconds : Z;
  wake_on_poll : bool
}.

(** Everything the program does not decide.  Each stream is indexed by the
    number of calls made so far (the cursors are part of the program state). *)
Record Env := {
  config : Config;
  (** answers of the OAuth token endpoint to [requests.post] *)
  token_net : nat → exchange;
  (** answers of the fleet API to [session.request] *)
  api_net : nat → exchange;
  (** would the n-th system call on files, being of the given kind, fail
      with [OSError]? *)
  io_fails : sys → nat → bool;
  (** when the n-th system call is a failing write: how many characters
      reached the file before the failure *)
  short_write : nat → nat;
  (** when the n-th system call is [mkstemp]: the name it picks *)
  tmp_name : nat → string;
  (** the [json] module on credential files: [json.dump(obj, f, indent=2)]
      and [json.load(f)], the reading and decoding of the file included *)
  json_dump : dict → string;
  json_load : string → parsed
}.


(** ** A [json] module for the examples

    [json.dump(obj, f, indent=2)] and [json.load(f)] on the values of the
    model: integers for numbers, strings of printable ASCII and control
    characters, files read as UTF-8.  The properties below hold for every
    [json_dump] and [json_load]; this instance is what the worked examples
    run.  It stays inside the model: a text with a fraction or an exponent
    has no value here and is refused like a text that is not JSON, and no
    text is too deep for it. *)

Module PyJson.

Definition quote_char : Ascii.ascii := Ascii.ascii_of_nat 34.
Definition backslash : Ascii.ascii := Ascii.ascii_of_nat 92.
Definition newline : Ascii.ascii := Ascii.ascii_of_nat 10.
Definition tab : Ascii.ascii := Ascii.ascii_of_nat 9.
Definition cr : Ascii.ascii := Ascii.ascii_of_nat 13.

Definition nl : string := String newline EmptyString.

Definition hex_digit (n : nat) : Ascii.ascii :=
  if (n <? 10)%nat then Ascii.ascii_of_nat (48 + n)
  else Ascii.ascii_of_nat (87 + n).

Fixpoint escape (s : string) : string :=
  match s with
  | EmptyString => EmptyString
  | String c rest =>
      let n := Ascii.nat_of_ascii c in
      (if Ascii.eqb c quote_char then String backslash (String quote_char EmptyString)
       else if Ascii.eqb c backslash then String backslash (String backslash EmptyString)
       else if Ascii.eqb c newline then String backslash "n"
       else if Ascii.eqb c tab then String backslash "t"
       else if Ascii.eqb c cr then String backslash "r"
       else if (n <? 32)%nat then
         String backslash
           (String "u"%char (String "0"%char (String "0"
             (String (hex_digit (n / 16)) (String (hex_digit (n mod 16)) EmptyString)))))
       else String c EmptyString)
      +:+ escape rest
  end.

Definition quote (s : string) : string :=
  String quote_char (escape s +:+ String quote_char EmptyString).

Definition indent (lvl : nat) : string := Nat.iter lvl (String.append "  ") EmptyString.

Fixpoint join (sep : string) (l : list string) : string :=
  match l with
  | [] => EmptyString
  | [x] => x
  | x :: rest => x +:+ sep +:+ join sep rest
  end.

Fixpoint dump_value (lvl : nat) (v : json) : string :=
  match v with
  | JNull => "null"
  | JBool b => if b then "true" else "false"
  | JNum n => pretty n
  | JStr s => quote s
  | JArr [] => "[]"
  | JArr l =>
      "[" +:+ nl
      +:+ join ("," +:+ nl)
            (map (λ x, indent (S lvl) +:+ dump_value (S lvl) x) l)
      +:+ nl +:+ indent lvl +:+ "]"
  | JObj m =>
      match map_fold
              (λ k x acc,
                 (indent (S lvl) +:+ quote k +:+ ": " +:+ dump_value (S lvl) x)
                 :: acc) [] m with
      | [] => "{}"
      | members =>
          "{" +:+ nl +:+ join ("," +:+ nl) members +:+ nl +:+ indent lvl +:+ "}"
      end
  end.

Definition json_dump (d : dict) : string := dump_value 0 (JObj d).

Definition is_space (c : Ascii.ascii) : bool :=
  Ascii.eqb c " "%char || Ascii.eqb c newline || Ascii.eqb c tab || Ascii.eqb c cr.

Fixpoint skip_ws (s : string) : string :=
  match s with
  | String c rest => if is_space c then skip_ws rest else s
  | EmptyString => s
  end.

Definition digit_of (c : Ascii.ascii) : option Z :=
  let n := Ascii.nat_of_ascii c in
  if (48 <=? n)%nat && (n <=? 57)%nat then Some (Z.of_nat (n - 48)) else None.

Definition hex_of (c : Ascii.ascii) : option nat :=
  let n := Ascii.nat_of_ascii c in
  if (48 <=? n)%nat && (n <=? 57)%nat then Some (n - 48)%nat
  else if (97 <=? n)%nat && (n <=? 102)%nat then Some (n - 87)%nat
  else if (65 <=? n)%nat && (n <=? 70)%nat then Some (n - 55)%nat
  else None.

(** The digits of a number, most significant first. *)
Fixpoint parse_digits (acc : Z) (s : string) : Z * string :=
  match s with
  | String c rest =>
      match digit_of c with
      | Some d => parse_digits (acc * 10 + d) rest
      | None => (acc, s)
      end
  | EmptyString => (acc, s)
  end.

Definition parse_number (s : string) : option (Z * string) :=
  match s with
  | String "-"%char (String c rest) =>
      match digit_of c with
      | Some d => let (n, rest') := parse_digits d rest in Some (- n, rest')
      | None => None
      end
  | String c rest =>
      match digit_of c with
      | Some d => Some (parse_digits d rest)
      | None => None
      end
  | EmptyString => None
  end.

(** The characters of a string literal, after its opening quote. *)
Fixpoint parse_chars (s : string) : option (string * string) :=
  match s with
  | EmptyString => None
  | String c rest =>
      if Ascii.eqb c quote_char then Some (EmptyString, rest)
      else if Ascii.eqb c backslash then
        match rest with
        | String "u"%char (String h1 (String h2 (String h3 (String h4 rest')))) =>
            match hex_of h1, hex_of h2, hex_of h3, hex_of h4 with
            | Some 0%nat, Some 0%nat, Some a, Some b =>
                match parse_chars rest' with
                | Some (str, rest'') =>
                    Some (String (Ascii.ascii_of_nat (16 * a + b)) str, rest'')
                | None => None
                end
            | _, _, _, _ => None
            end
        | String e rest' =>
            let plain :=
              if Ascii.eqb e "n"%char then Some newline
              else if Ascii.eqb e "t"%char then Some tab
              else if Ascii.eqb e "r"%char then Some cr
              else if Ascii.eqb e quote_char || Ascii.eqb e backslash
                      || Ascii.eqb e "/"%char then Some e
              else None in
            match plain, parse_chars rest' with
            | Some c', Some (str, rest'') => Some (String c' str, rest'')
            | _, _ => None
            end
        | EmptyString => None
        end
      else
        match parse_chars rest with
        | Some (str, rest') => Some (String c str, rest')
        | None => None
        end
  end.

Definition expect (word : string) (s : string) : option string :=
  if String.prefix word s
  then Some (String.substring (String.length word)
               (String.length s - String.length word) s)
  else None.

(** Recursive descent; [fuel] bounds the nesting and the number of
    elements, the length of the text is always enough. *)
Fixpoint parse_value (fuel : nat) (s : string) : option (json * string) :=
  match fuel with
  | O => None
  | S fuel =>
      match skip_ws s with
      | String "n"%char _ => rest ← expect "null" (skip_ws s); Some (JNull, rest)
      | String "t"%char _ => rest ← expect "true" (skip_ws s); Some (JBool true, rest)
      | String "f"%char _ => rest ← expect "false" (skip_ws s); Some (JBool false, rest)
      | String "["%char rest =>
          match skip_ws rest with
          | String "]"%char rest' => Some (JArr [], rest')
          | _ => '(l, rest') ← parse_elements fuel rest; Some (JArr l, rest')
          end
      | String "{"%char rest =>
          match skip_ws rest with
          | String "}"%char rest' => Some (JObj ∅, rest')
          | _ => '(m, rest') ← parse_members fuel rest; Some (JObj m, rest')
          end
      | String c rest =>
          if Ascii.eqb c quote_char then
            '(str, rest') ← parse_chars rest; Some (JStr str, rest')
          else
            '(n, rest') ← parse_number (skip_ws s); Some (JNum n, rest')
      | EmptyString => None
      end
  end
with parse_elements (fuel : nat) (s : string) : option (list json * string) :=
  match fuel with
  | O => None
  | S fuel =>
      '(v, rest) ← parse_value fuel s;
      match skip_ws rest with
      | String ","%char rest' =>
          '(l, rest'') ← parse_elements fuel rest'; Some (v :: l, rest'')
      | String "]"%char rest' => Some ([v], rest')
      | _ => None
      end
  end
with parse_members (fuel : nat) (s : string) : option (dict * string) :=
  match fuel with
  | O => None
  | S fuel =>
      match skip_ws s with
      | String c rest =>
          if Ascii.eqb c quote_char then
            '(k, rest) ← parse_chars rest;
            match skip_ws rest with
            | String ":"%char rest =>
                '(v, rest) ← parse_value fuel rest;
                match skip_ws rest with
                | String ","%char rest' =>
                    '(m, rest'') ← parse_members fuel rest';
                    (* a repeated key keeps its last value *)
                    Some (match m !! k with Some _ => m | None => <[k := v]> m end,
                          rest'')
                | String "}"%char rest' => Some ({[k := v]}, rest')
                | _ => None
                end
            | _ => None
            end
          else None
      | EmptyString => None
      end
  end.

(** Is the byte a continuation byte of UTF-8, within the given bounds? *)
Definition continues (lo hi : nat) (c : Ascii.ascii) : bool :=
  let n := Ascii.nat_of_ascii c in (lo <=? n)%nat && (n <=? hi)%nat.

(** Well-formed UTF-8: what [open(path)] can decode. *)
Fixpoint is_utf8 (s : string) : bool :=
  match s with
  | EmptyString => true
  | String c rest =>
      let n := Ascii.nat_of_ascii c in
      if (n <? 128)%nat then is_utf8 rest
      else if (194 <=? n)%nat && (n <=? 223)%nat then
        match rest with
        | String c1 rest => continues 128 191 c1 && is_utf8 rest
        | _ => false
        end
      else if (224 <=? n)%nat && (n <=? 239)%nat then
        match rest with
        | String c1 (String c2 rest) =>
            continues (if (n =? 224)%nat then 160 else 128)
                      (if (n =? 237)%nat then 159 else 191) c1
            && continues 128 191 c2 && is_utf8 rest
        | _ => false
        end
      else if (240 <=? n)%nat && (n <=? 244)%nat then
        match rest with
        | String c1 (String c2 (String c3 rest)) =>
            continues (if (n =? 240)%nat then 144 else 128)
                      (if (n =? 244)%nat then 143 else 191) c1
            && continues 128 191 c2 && continues 128 191 c3 && is_utf8 rest
        | _ => false
        end
      else false
  end.

Definition json_load (s : string) : parsed :=
  if is_utf8 s then
    match parse_value (S (String.length s)) s with
    | Some (v, rest) =>
        match skip_ws rest with
        | EmptyString => Parsed v
        | _ => ParseRaises JSONDecodeError      (* Extra data *)
        end
    | None => ParseRaises JSONDecodeError
    end
  else ParseRaises UnicodeDecodeError.

End PyJson.

(** ** Program state *)

Inductive event : Type :=
| EvRefresh                                   (* refresh_access_token() entered *)
| EvPost (refresh_token : json)               (* POST to the token endpoint *)
| EvRequest (method path : string) (token : json)  (* one API request sent *)
| EvSleep (d : Z)                             (* time.sleep(d) *)
| EvSave (token_data : dict).                 (* save_token(token_data) entered *)

Record State := {
  clock : Z;
  fs : gmap string string;
  token_pos : nat;
  api_pos : nat;
  io_pos : nat;
  _token_data : option dict;
  trace : list event
}.

Definition set_clock (t : Z) (s : State) : State :=
  {| clock := t; fs := fs s; token_pos := token_pos s; api_pos := api_pos s;
     io_pos := io_pos s; _token_data := _token_data s; trace := trace s |}.
Definition set_fs (f : gmap string string) (s : State) : State :=
  {| clock := clock s; fs := f; token_pos := token_pos s; api_pos := api_pos s;
     io_pos := io_pos s; _token_data := _token_data s; trace := trace s |}.
Definition set_token_pos (n : nat) (s : State) : State :=
  {| clock := clock s; fs := fs s; token_pos := n; api_pos := api_pos s;
     io_pos := io_pos s; _token_data := _token_data s; trace := trace s |}.
Definition set_api_pos (n : nat) (s : State) : State :=
  {| clock := clock s; fs := fs s; token_pos := token_pos s; api_pos := n;
     io_pos := io_pos s; _token_data := _token_data s; trace := trace s |}.
Definition set_io_pos (n : nat) (s : State) : State :=
  {| clock := clock s; fs := fs s; token_pos := token_pos s; api_pos := api_pos s;
     io_pos := n; _token_data := _token_data s; trace := trace s |}.
Definition set_token_data (d : option dict) (s : State) : State :=
  {| clock := clock s; fs := fs s; token_pos := token_pos s; api_pos := api_pos s;
     io_pos := io_pos s; _token_data := d; trace := trace s |}.
Definition log_event (ev : event) (s : State) : State :=
  {| clock := clock s; fs := fs s; token_pos := token_pos s; api_pos := api_pos s;
     io_pos := io_pos s; _token_data := _token_data s; trace := trace s ++ [ev] |}.

(** ** Computations: state and exceptions *)

Inductive res (A : Type) : Type :=
| Ret (a : A)
| Raise (e : exn).
Arguments Ret {A} a.
Arguments Raise {A} e.

Definition M (A : Type) : Type := State → res A * State.

Definition ret {A} (a : A) : M A := λ s, (Ret a, s).
Definition raise {A} (e : exn) : M A := λ s, (Raise e, s).
Definition bind {A B} (m : M A) (k : A → M B) : M B :=
  λ s, match m s with
       | (Ret a, s') => k a s'
       | (Raise e, s') => (Raise e, s')
       end.
Definition get : M State := λ s, (Ret s, s).
Definition modify (f : State → State) : M unit := λ s, (Ret tt, f s).

(** [try: m  except <the exceptions h names>: h e]; [h] answers [None] for
    an exception the clause does not catch. *)
Definition try_except {A} (m : M A) (h : exn → option (M A)) : M A :=
  λ s, match m s with
       | (Ret a, s') => (Ret a, s')
       | (Raise e, s') =>
           match h e with
           | Some handler => handler s'
           | None => (Raise e, s')
           end
       end.

(** Running [m] and looking at how it ended, for a [try] block whose handler
    depends on how far the block got. *)
Definition attempt {A} (m : M A) : M (res A) :=
  λ s, let (r, s') := m s in (Ret r, s').

Notation "'let!' x ':=' m 'in' k" := (bind m (λ x, k))
  (at level 10, x name, m at level 200, k at level 200).
Notation "m '>>' k" := (bind m (λ _, k))
  (at level 100, k at level 200, right associativity).

(** ** The standard library calls the code makes *)

Definition time_time : M Z := λ s, (Ret (clock s), s).

(** [time.sleep(d)]; a negative [d] is a [ValueError]. *)
Definition time_sleep (d : Z) : M unit :=
  if d <? 0 then raise ValueError
  else modify (λ s, log_event (EvSleep d) (set_clock (clock s + d) s)).

(** Every system call on files consumes one answer of [io_fails]. *)
Definition syscall (E : Env) (c : sys) : M nat :=
  λ s, let n := io_pos s in
       if io_fails E c n then (Raise OSError, set_io_pos (S n) s)
       else (Ret n, set_io_pos (S n) s).

(** [os.makedirs(dir, exist_ok=True)]: directories are not modelled, only
    the possible failure. *)
Definition os_makedirs (E : Env) : M unit := syscall E Makedirs >> ret tt.

(** [tempfile.mkstemp]: creates a new, empty file under a name that did not
    exist ([O_EXCL]) and returns the name. *)
Definition mkstemp (E : Env) : M string :=
  let! n := syscall E Mkstemp in
  let p := tmp_name E n in
  let! s := get in
  match fs s !! p with
  | Some _ => raise OSError     (* FileExistsError: no usable name *)
  | None => modify (set_fs (<[p := EmptyString]> (fs s))) >> ret p
  end.

Definition os_fdopen (E : Env) : M unit := syscall E Fdopen >> ret tt.

(** Writing [content] to the open file [p] and closing it.  A failing write
    leaves a prefix of the content behind. *)
Definition write_and_close (E : Env) (p content : string) : M unit :=
  λ s, let n := io_pos s in
       if io_fails E Write n then
         (Raise OSError,
          set_io_pos (S n)
            (set_fs (<[p := String.substring 0 (short_write E n) content]> (fs s)) s))
       else
         (Ret tt, set_io_pos (S n) (set_fs (<[p := content]> (fs s)) s)).

(** [os.replace(src, dst)]: atomic; on failure nothing changes. *)
Definition os_replace (E : Env) (src dst : string) : M unit :=
  let! _ := syscall E Replace in
  let! s := get in
  match fs s !! src with
  | None => raise OSError       (* FileNotFoundError *)
  | Some c => modify (set_fs (<[dst := c]> (delete src (fs s))))
  end.

Definition os_unlink (E : Env) (p : string) : M unit :=
  let! _ := syscall E Unlink in
  let! s := get in
  match fs s !! p with
  | None => raise OSError       (* FileNotFoundError *)
  | Some _ => modify (set_fs (delete p (fs s)))
  end.

Definition os_path_exists (p : string) : M bool :=
  λ s, (Ret (bool_decide (is_Some (fs s !! p))), s).

(** [open(p)] followed by reading the whole file. *)
Definition open_and_read (E : Env) (p : string) : M string :=
  let! _ := syscall E Open in
  let! s := get in
  match fs s !! p with
  | None => raise OSError
  | Some c => ret c
  end.

(** [requests.post(url, json=payload, timeout=30)] to the token endpoint. *)
Definition requests_post (E : Env) (refresh_token : json) : M response :=
  λ s, let x := token_net E (token_pos s) in
       let s' := log_event (EvPost refresh_token)
                   (set_clock (clock s + Z.of_nat (latency x))
                      (set_token_pos (S (token_pos s)) s)) in
       match result x with
       | Answered r => (Ret r, s')
       | NoAnswer => (Raise RequestException, s')
       end.

(** [session.request(method, url, headers=..., timeout=30, **kwargs)] *)
Definition session_request (E : Env) (method path : string) (token : json)
  : M response :=
  λ s, let x := api_net E (api_pos s) in
       let s' := log_event (EvRequest method path token)
                   (set_clock (clock s + Z.of_nat (latency x))
                      (set_api_pos (S (api_pos s)) s)) in
       match result x with
       | Answered r => (Ret r, s')
       | NoAnswer => (Raise RequestException, s')
       end.

(** [resp.json()]: [requests.exceptions.JSONDecodeError] is a
    [RequestException]. *)
Definition resp_json (r : response) : M json :=
  match body r with
  | Some v => ret v
  | None => raise RequestException
  end.

(** [range(n)] *)
Definition range (n : nat) : list nat := seq 0 n.

(** ** [tesla_auth.py]: class [TeslaAuth] *)

(** How [load_token] ends.  [Ended r s] is the end of any computation: what
    it returned or raised, and the state it left.  [Held v s] is the end
    that the state cannot record: the call returned [True] and
    [self._token_data] is now [v], a JSON value that is neither a record
    nor [None]; [s] is the state of everything else (its [_token_data] is
    the credential held before, which [v] has replaced). *)
Inductive load_end : Type :=
| Ended (r : res bool) (s : State)
| Held (v : json) (s : State).

Section TeslaAuth.
Variable E : Env.

(** [is_token_valid]: refresh proactively 5 minutes before expiry. *)
Definition is_token_valid : M bool :=
  let! s := get in
  match _token_data s with
  | None => ret false
  | Some td =>
      let expires_at := dict_get td "expires_at" (JNum 0) in
      let! now := time_time in
      match as_number expires_at with
      | Some e => ret (now <? e - 300)
      | None => raise TypeError
      end
  end.

(** [save_token]: atomic write, temporary file then rename.  [tmp_path] is
    the local variable of that name: unbound until [mkstemp] has
    returned. *)
Definition save_token (token_data : dict) : M unit :=
  let path := token_file_path (config E) in
  modify (log_event (EvSave token_data)) >>
  os_makedirs E >>
  let except_OSError (tmp_path : option string) : M unit :=
    (* Try to clean up temp file *)
    match tmp_path with
    | None => raise (UnboundLocalError "tmp_path")
    | Some p =>
        try_except (os_unlink E p)
          (λ e, match e with OSError => Some (ret tt) | _ => None end) >>
        raise OSError
    end in
  let! made := attempt (mkstemp E) in
  match made with
  | Raise OSError => except_OSError None
  | Raise e => raise e
  | Ret tmp_path =>
      try_except
        (os_fdopen E >>
         write_and_close E tmp_path (json_dump E token_data) >>
         os_replace E tmp_path path >>
         modify (set_token_data (Some token_data)))
        (λ e, match e with
              | OSError => Some (except_OSError (Some tmp_path))
              | _ => None
              end)
  end.

(** [json.load(f)] inside [with open(path) as f]. *)
Definition read_json (path : string) : M json :=
  let! content := open_and_read E path in
  match json_load E content with
  | Parsed v => ret v
  | ParseRaises e => raise e
  end.

(** [load_token].  [self._token_data = json.load(f)] holds whatever
    [json.load] returned: a record, [None] for the text [null], or a
    list, a string, a number, a boolean.  The state has room for the
    first two only, so the call ends in [Held v s] for the others. *)
Definition load_token : State → load_end :=
  λ s,
  let path := token_file_path (config E) in
  match os_path_exists path s with
  | (Ret found, s1) =>
      if negb found then Ended (Ret false) s1     (* Token file not found *)
      else
        match read_json path s1 with
        | (Ret (JObj d), s2) => Ended (Ret true) (set_token_data (Some d) s2)
        | (Ret JNull, s2) => Ended (Ret true) (set_token_data None s2)
        | (Ret v, s2) => Held v s2
        (* except (json.JSONDecodeError, OSError) *)
        | (Raise JSONDecodeError, s2) | (Raise OSError, s2) =>
            Ended (Ret false) s2
        | (Raise e, s2) => Ended (Raise e) s2
        end
  | (Raise e, s1) => Ended (Raise e) s1
  end.

(** The [try] block inside the loop of [refresh_access_token], with its
    [except requests.RequestException] clause: [true] when the block
    reached its [return]. *)
Definition refresh_attempt (refresh_token : json) : M bool :=
  try_except
    (let! resp := requests_post E refresh_token in
     if status_code resp =? 200 then
       let! data := resp_json resp in
       match data with
       | JObj data =>
           match data !! "access_token" with
           | None => raise (KeyError "access_token")
           | Some access =>
           match data !! "refresh_token" with
           | None => raise (KeyError "refresh_token")
           | Some refresh =>
           let! now := time_time in
           match as_number (dict_get data "expires_in" (JNum 3600)) with
           | None => raise TypeError
           | Some expires_in =>
           let! created := time_time in
           let token_data : dict :=
             <["access_token" := access]>
             (<["refresh_token" := refresh]>
             (<["expires_at" := JNum (now + expires_in)]>
             (<["token_type" := dict_get data "token_type" (JStr "Bearer")]>
             (<["created_at" := JNum created]> ∅)))) in
           (* Save immediately: refresh tokens are single-use *)
           save_token token_data >>
           ret true
           end end end
       | _ => raise TypeError     (* data["access_token"] on a non-dict *)
       end
     else ret false)
    (λ e, match e with RequestException => Some (ret false) | _ => None end).

(** [for attempt in range(max_retries)] in [refresh_access_token]:
    [attempts] holds the iterations still to run, [backoff] the local
    variable. *)
Fixpoint refresh_loop (refresh_token : json) (max_retries : Z)
    (attempts : list nat) (backoff : Z) : M unit :=
  match attempts with
  | [] =>
      (* Token refresh failed after max_retries attempts *)
      modify (set_token_data None)
  | attempt :: rest =>
      let! returned := refresh_attempt refresh_token in
      if returned : bool then ret tt
      else if Z.of_nat attempt <? max_retries - 1 then
        time_sleep (Z.min backoff 60) >>
        refresh_loop refresh_token max_retries rest (backoff * 2)
      else
        refresh_loop refresh_token max_retries rest backoff
  end.

Definition refresh_access_token : M unit :=
  modify (log_event EvRefresh) >>
  let! s := get in
  match _token_data s with
  | None => ret tt                                 (* No refresh token available *)
  | Some td =>
      match td !! "refresh_token" with
      | None => ret tt                             (* No refresh token available *)
      | Some refresh_token =>
          let max_retries := 5%nat in
          refresh_loop refresh_token (Z.of_nat max_retries) (range max_retries) 1
      end
  end.

(** The [access_token] property. *)
Definition access_token : M json :=
  let! s := get in
  match _token_data s with
  | None => ret JNull
  | Some _ =>
      let! valid := is_token_valid in
      (if negb valid then refresh_access_token else ret tt) >>
      let! s := get in
      match _token_data s with
      | Some td => if decide (size td = 0%nat) then ret JNull
                   else ret (dict_get td "access_token" JNull)
      | None => ret JNull
      end
  end.

End TeslaAuth.

(** ** [tesla_client.py]: class [TeslaClient] *)

Section TeslaClient.
Variable E : Env.

(** How one iteration of the loop of [_request] ends. *)
Inductive control : Type :=
| Return (v : json)
| Continue (backoff : Z).

(** What the [try] block inside the loop of [_request] does with the
    response it got. *)
Definition on_response (max_retries : Z) (attempt : nat) (backoff : Z)
    (resp : response) : M control :=
  let status := status_code resp in
  if status =? 200 then
    let! v := resp_json resp in ret (Return v)
  else if (status =? 401) && (Z.of_nat attempt =? 0) then
    (* Got 401, refreshing token and retrying *)
    refresh_access_token E >> ret (Continue backoff)
  else if status =? 408 then
    ret (Return JNull)
  else if status =? 429 then
    match default (Some 30) (retry_after resp) with
    | None => raise ValueError             (* int() *)
    | Some delay => time_sleep delay >> ret (Continue backoff)
    end
  else if status >=? 500 then
    if Z.of_nat attempt <? max_retries - 1 then
      time_sleep (Z.min backoff 60) >> ret (Continue (backoff * 2))
    else ret (Continue backoff)
  else
    (* Other 4xx *)
    ret (Return JNull).

(** The [try] block inside the loop of [_request], with its
    [except requests.RequestException] clause. *)
Definition request_attempt (method path : string) (max_retries : Z)
    (attempt : nat) (backoff : Z) (token : json) : M control :=
  try_except
    (let! resp := session_request E method path token in
     on_response max_retries attempt backoff resp)
    (λ e, match e with
          | RequestException =>
              Some (if Z.of_nat attempt <? max_retries - 1 then
                      time_sleep (Z.min backoff 60) >>
                      ret (Continue (backoff * 2))
                    else ret (Continue backoff))
          | _ => None
          end).

(** [for attempt in range(max_retries)] in [_request]. *)
Fixpoint request_loop (method path : string) (max_retries : Z)
    (attempts : list nat) (backoff : Z) : M json :=
  match attempts with
  | [] =>
      (* All max_retries request attempts failed *)
      ret JNull
  | attempt :: rest =>
      let! token := access_token E in
      match token with
      | JNull => ret JNull            (* No valid access token available *)
      | _ =>
          let! ctl := request_attempt method path max_retries attempt backoff token in
          match ctl with
          | Return v => ret v
          | Continue backoff => request_loop method path max_retries rest backoff
          end
      end
  end.

Definition _request (method path : string) : M json :=
  let max_retries := 3%nat in
  request_loop method path (Z.of_nat max_retries) (range max_retries) 1.

End TeslaClient.

(** ** [sleep_tracker.py]: class [SleepTracker] *)

Record SleepTracker := {
  _last_known_state : string;
  _last_data_fetch : Z;
  _consecutive_errors : Z
}.

Section SleepTracker.
Variable cfg : Config.

(** [__init__] *)
Definition SleepTracker_init : SleepTracker :=
  {| _last_known_state := "unknown"; _last_data_fetch := 0;
     _consecutive_errors := 0 |}.

Definition update_state (state : string) (t : SleepTracker) : SleepTracker :=
  {| _last_known_state := state;
     _last_data_fetch := _last_data_fetch t;
     _consecutive_errors := 0 |}.

Definition record_error (t : SleepTracker) : SleepTracker :=
  {| _last_known_state := _last_known_state t;
     _last_data_fetch := _last_data_fetch t;
     _consecutive_errors := _consecutive_errors t + 1 |}.

Definition record_successful_fetch (now : Z) (t : SleepTracker) : SleepTracker :=
  {| _last_known_state := _last_known_state t;
     _last_data_fetch := now;
     _consecutive_errors := _consecutive_errors t |}.

Definition should_fetch_data (current_state : string) (t : SleepTracker) : bool :=
  if String.eqb current_state "online" then true
  else if String.eqb current_state "asleep" then
    if wake_on_poll cfg then true else false
  else if String.eqb current_state "offline" then false
  else false.

Definition get_poll_interval (t : SleepTracker) : Z :=
  (* After many consecutive errors, slow down *)
  if _consecutive_errors t >=? 5 then
    Z.max (poll_interval_seconds cfg) (sleep_poll_interval_seconds cfg)
  else if bool_decide (_last_known_state t ∈ ["asleep"; "offline"; "unknown"]) then
    sleep_poll_interval_seconds cfg
  else
    poll_interval_seconds cfg.

End SleepTracker.

(** ** Vocabulary of the properties *)

(** Counting the calls recorded in the trace. *)
Definition is_refresh (ev : event) : bool :=
  match ev with EvRefresh => true | _ => false end.
Definition is_request (ev : event) : bool :=
  match ev with EvRequest _ _ _ => true | _ => false end.
Definition is_save (ev : event) : bool :=
  match ev with EvSave _ => true | _ => false end.
Definition is_post (ev : event) : bool :=
  match ev with EvPost _ => true | _ => false end.

Definition count (p : event → bool) (s : State) : nat :=
  length (List.filter p (trace s)).

(** The token a reader of [access_token] is handed when no refresh is due:
    [self._token_data.get("access_token") if self._token_data else None]. *)
Definition held_token (s : State) : json :=
  match _token_data s with
  | Some td => dict_get td "access_token" JNull
  | None => JNull
  end.

(** [expires_at] as [is_token_valid] reads it. *)
Definition expires_at (td : dict) : option Z :=
  as_number (dict_get td "expires_at" (JNum 0)).

(** A relation that holds between the state before and after a computation,
    however it ends. *)
Definition track {A} (R : relation State) (m : M A) : Prop :=
  ∀ s, R s (m s).2.

(** The computation adds no event that [p] counts. *)
Definition silent {A} (p : event → bool) (m : M A) : Prop :=
  track (λ s s', count p s' = count p s) m.

(** One of the five system calls of a [save_token] that starts as system
    call number [n] is set to fail. *)
Definition save_step_fails (E : Env) (n : nat) : bool :=
  io_fails E Makedirs n || io_fails E Mkstemp (n + 1) || io_fails E Fdopen (n + 2)
  || io_fails E Write (n + 3) || io_fails E Replace (n + 4).

(** The trace only grows. *)
Definition extends (s s' : State) : Prop :=
  ∃ evs : list event, trace s' = (trace s ++ evs)%list.

(** The state after one exchange with the token endpoint, after one
    exchange with the fleet API, and after a sleep. *)
Definition posted (E : Env) (refresh_token : json) (s : State) : State :=
  log_event (EvPost refresh_token)
    (set_clock (clock s + Z.of_nat (latency (token_net E (token_pos s))))
       (set_token_pos (S (token_pos s)) s)).

Definition sent (E : Env) (method path : string) (token : json) (s : State) : State :=
  log_event (EvRequest method path token)
    (set_clock (clock s + Z.of_nat (latency (api_net E (api_pos s))))
       (set_api_pos (S (api_pos s)) s)).

Definition slept (d : Z) (s : State) : State :=
  log_event (EvSleep d) (set_clock (clock s + d) s).

(** An answer of the token endpoint that [refresh_access_token] counts as a
    failed attempt: no answer, a status other than 200, or a 200 whose body
    is not JSON. *)
Definition failed_answer (x : exchange) : bool :=
  match result x with
  | NoAnswer => true
  | Answered r =>
      negb (status_code r =? 200)
      || match body r with None => true | Some _ => false end
  end.

(** Does a decoded body hold both fields of a replacement credential? *)
Definition has_both_tokens (v : json) : bool :=
  match v with
  | JObj data =>
      bool_decide (is_Some (data !! "access_token"))
      && bool_decide (is_Some (data !! "refresh_token"))
  | _ => false
  end.

(** A 200 answer whose JSON body lacks [access_token] or [refresh_token]. *)
Definition partial_answer (x : exchange) : bool :=
  match result x with
  | NoAnswer => false
  | Answered r =>
      (status_code r =? 200)
      && match body r with
         | None => false
         | Some v => negb (has_both_tokens v)
         end
  end.

(** What the rest of the program can ask of a [TeslaAuth] and of the client
    built on it, short of handing it a credential ([load_token],
    [save_token]). *)
Inductive call : Type :=
| ReadAccessToken
| ReadIsTokenValid
| CallRefreshAccessToken
| CallRequest (method path : string).

Definition run_call (E : Env) (s : State) (c : call) : State :=
  match c with
  | ReadAccessToken => (access_token E s).2
  | ReadIsTokenValid => (is_token_valid s).2
  | CallRefreshAccessToken => (refresh_access_token E s).2
  | CallRequest method path => (_request E method path s).2
  end.

(** The exceptions a computation can end with. *)
Definition throws {A} (P : exn → Prop) (m : M A) : Prop :=
  ∀ s e s', m s = (Raise e, s') → P e.

(** What [_request] leaves in the trace when attempts [a], [a+1], ... of a
    loop of [n] attempts all get a 5xx: a request each and, except after the
    last attempt of the loop, a sleep that starts at [b] seconds, doubles
    every time and is capped at 60. *)
Definition backoff_trace (method path : string) (token : json) (n : Z)
    (a : nat) (b : Z) (k : nat) : list event :=
  flat_map
    (λ i, EvRequest method path token ::
          if Z.of_nat (a + i) <? n - 1
          then [EvSleep (Z.min (b * 2 ^ Z.of_nat i) 60)] else [])
    (seq 0 k).

(** ** Worked examples: a configuration, credentials, environments *)

Module Demo.

Definition cfg : Config :=
  {| token_file_path := "/data/tokens/token.json";
     poll_interval_seconds := 300;
     sleep_poll_interval_seconds := 660;
     wake_on_poll := false |}.

(** A configuration that polls more slowly awake than asleep. *)
Definition cfg_slow : Config :=
  {| token_file_path := "/data/tokens/token.json";
     poll_interval_seconds := 900;
     sleep_poll_interval_seconds := 660;
     wake_on_poll := false |}.

(** A credential issued at 1700000000 for one hour. *)
Definition td : dict :=
  <["access_token" := JStr "at-1"]>
  (<["refresh_token" := JStr "rt-1"]>
  (<["expires_at" := JNum 1700003600]>
  (<["token_type" := JStr "Bearer"]>
  (<["created_at" := JNum 1700000000]> ∅)))).

(** The same credential without its refresh token. *)
Definition td_no_refresh : dict := delete "refresh_token" td.

(** Its replacement, as a refresh at 1700003400 builds it. *)
Definition td' : dict :=
  <["access_token" := JStr "at-2"]>
  (<["refresh_token" := JStr "rt-2"]>
  (<["expires_at" := JNum 1700007000]>
  (<["token_type" := JStr "Bearer"]>
  (<["created_at" := JNum 1700003400]> ∅)))).

Definition answer (status : Z) (v : option json) : exchange :=
  {| latency := 0;
     result := Answered {| status_code := status; body := v;
                           retry_after := None |} |}.

Definition no_answer : exchange := {| latency := 0; result := NoAnswer |}.

(** A token endpoint that grants [td'], one that answers 200 without a
    refresh token, the vehicle list. *)
Definition grant : json :=
  JObj (<["access_token" := JStr "at-2"]>
       (<["refresh_token" := JStr "rt-2"]>
       (<["expires_in" := JNum 3600]> ∅))).

Definition partial_grant : json :=
  JObj (<["access_token" := JStr "at-2"]> (<["expires_in" := JNum 3600]> ∅)).

Definition vehicles : json :=
  JObj (<["response" := JArr [JObj (<["id" := JNum 7]>
                                   (<["state" := JStr "online"]> ∅))]]> ∅).

Definition sys_code (c : sys) : nat :=
  match c with
  | Makedirs => 0 | Mkstemp => 1 | Fdopen => 2 | Write => 3
  | Replace => 4 | Unlink => 5 | Open => 6
  end.

(** An environment from the answers of the two servers, in order (silence
    once they are used up), and the system calls that fail, by kind and
    number. *)
Definition env (token_answers api_answers : list exchange)
    (failing : list (sys * nat)) : Env :=
  {| config := cfg;
     token_net := λ n, nth n token_answers no_answer;
     api_net := λ n, nth n api_answers no_answer;
     io_fails := λ c n,
       existsb (λ f, (sys_code c =? sys_code f.1)%nat && (n =? f.2)%nat) failing;
     short_write := λ _, 1%nat;
     tmp_name := λ n, "/data/tokens/tmp" +:+ pretty n +:+ ".tmp";
     json_dump := PyJson.json_dump;
     json_load := PyJson.json_load |}.

(** The state of a process that holds the credential [d] at time [now],
    with the credential [td] on disk. *)
Definition holding (d : option dict) (now : Z) : State :=
  {| clock := now;
     fs := {[ token_file_path cfg := PyJson.json_dump td ]};
     token_pos := 0; api_pos := 0; io_pos := 0;
     _token_data := d;
     trace := [] |}.

Definition list_vehicles : string := "/api/1/vehicles".

(** The environments of the examples. *)
(* nothing fails, nobody answers *)
Definition quiet : Env := env [] [] [].
(* the disk fills up during the write of a save *)
Definition disk_full : Env := env [] [] [(Write, 3%nat)].
(* ... and the file system then refuses the clean-up too *)
Definition read_only : Env := env [] [] [(Write, 3%nat); (Unlink, 4%nat)].
(* the token endpoint is down, then answers 200 without a refresh token *)
Definition partial_refresh : Env :=
  env [no_answer; answer 200 (Some partial_grant)] [] [].
(* the token endpoint is down for good; the fleet API rejects the token
   once and would accept the next request *)
Definition token_endpoint_down : Env :=
  env [] [answer 401 None; answer 200 (Some vehicles)] [].
(* the token was revoked: 401, then 200 once it has been refreshed *)
Definition revoked : Env :=
  env [answer 200 (Some grant)]
      [answer 401 None; answer 200 (Some vehicles)] [].
(* a 401 after a 500 *)
Definition late_401 : Env :=
  env [] [answer 500 None; answer 401 None; answer 200 (Some vehicles)] [].

(** The states of the examples: the credential is fresh, is due for
    refresh, has lost its refresh token and expired. *)
Definition fresh : State := holding (Some td) 1700000000.
Definition due : State := holding (Some td) 1700003400.
Definition stale : State := holding (Some td_no_refresh) 1700009999.

Definition unauthorized : response :=
  {| status_code := 401; body := None; retry_after := None |}.

Definition failing : SleepTracker :=
  {| _last_known_state := "online"; _last_data_fetch := 1700000000;
     _consecutive_errors := 5 |}.
Definition asleep : SleepTracker :=
  {| _last_known_state := "asleep"; _last_data_fetch := 1700000000;
     _consecutive_errors := 4 |}.
Definition online : SleepTracker :=
  {| _last_known_state := "online"; _last_data_fetch := 1700000000;
     _consecutive_errors := 4 |}.

End Demo.

(** ** [tesla_auth.py]: the authorization-code exchange *)

Section TeslaAuthExchange.
Variable E : Env.

(** [resp.raise_for_status()]: [HTTPError], which is a [RequestException],
    for a 4xx or a 5xx. *)
Definition raise_for_status (resp : response) : M unit :=
  if (400 <=? status_code resp) && (status_code resp <? 600)
  then raise RequestException
  else ret tt.

(** [exchange_code]: nothing here is inside a [try].  The event of the
    post records the grant that was sent, here the authorization code. *)
Definition exchange_code (code : string) : M dict :=
  let! resp := requests_post E (JStr code) in
  raise_for_status resp >>
  let! data := resp_json resp in
  match data with
  | JObj data =>
      match data !! "access_token" with
      | None => raise (KeyError "access_token")
      | Some access =>
      match data !! "refresh_token" with
      | None => raise (KeyError "refresh_token")
      | Some refresh =>
      let! now := time_time in
      match as_number (dict_get data "expires_in" (JNum 3600)) with
      | None => raise TypeError
      | Some expires_in =>
      let! created := time_time in
      let token_data : dict :=
        <["access_token" := access]>
        (<["refresh_token" := refresh]>
        (<["expires_at" := JNum (now + expires_in)]>
        (<["token_type" := dict_get data "token_type" (JStr "Bearer")]>
        (<["created_at" := JNum created]> ∅)))) in
      save_token E token_data >>
      ret token_data
      end end end
  | _ => raise TypeError     (* data["access_token"] on a non-dict *)
  end.

End TeslaAuthExchange.

(** ** Python values in the hands of the client's callers

    The public methods of [TeslaClient] call [.get] on whatever JSON the API
    sent and iterate over it: on a value of the wrong type that is an
    [AttributeError], an exception of its own beside those of [exn]. *)

Inductive pyerr : Type :=
| AttributeError.

Inductive py (A : Type) : Type :=
| Ok (a : A)
| Err (e : pyerr).
Arguments Ok {A} a.
Arguments Err {A} e.

(** Computations that may also end with an [AttributeError]. *)
Definition P (A : Type) : Type := M (py A).

Definition lift {A} (m : M A) : P A := let! a := m in ret (Ok a).

Definition bindP {A B} (m : P A) (k : A → P B) : P B :=
  let! r := m in
  match r with
  | Ok a => k a
  | Err e => ret (Err e)
  end.

Notation "'let?' x ':=' m 'in' k" := (bindP m (λ x, k))
  (at level 10, x name, m at level 200, k at level 200).

(** [v.get(k, default)] on any value. *)
Definition py_get (v : json) (k : string) (default : json) : py json :=
  match v with
  | JObj d => Ok (dict_get d k default)
  | _ => Err AttributeError
  end.

(** [v == n] for an [int] [n], and [v == s] for a [str] [s]. *)
Definition py_eq_int (v : json) (n : Z) : bool :=
  match as_number v with
  | Some m => m =? n
  | None => false
  end.

Definition py_eq_str (v : json) (s : string) : bool :=
  match v with
  | JStr s' => String.eqb s' s
  | _ => false
  end.

(** The characters of a string, as [for c in s] sees them. *)
Fixpoint chars (s : string) : list json :=
  match s with
  | EmptyString => []
  | String c rest => JStr (String c EmptyString) :: chars rest
  end.

(** [for v in vehicles]: the elements of a list, the characters of a
    string, the keys of a dict; anything else is not iterable.  (Python
    goes through the keys in insertion order, the map here in its own; the
    loop of [wake_vehicle] fails at the first key, whichever it is.) *)
Definition py_iter (v : json) : M (list json) :=
  match v with
  | JArr l => ret l
  | JStr s => ret (chars s)
  | JObj d => ret (JStr <$> (map_to_list d).*1)
  | _ => raise TypeError
  end.

(** ** [tesla_client.py]: the public methods of [TeslaClient] *)

Section TeslaClientMethods.
Variable E : Env.

Definition list_vehicles : P json :=
  let! result := _request E "GET" "/api/1/vehicles" in
  match result with
  | JNull => ret (Ok (JArr []))
  | _ => ret (py_get result "response" (JArr []))
  end.

(** [get_vehicle_data]; the [endpoints] parameter, the same for every
    call, is not part of [_request] as modelled. *)
Definition get_vehicle_data (vehicle_id : Z) : P json :=
  let! result :=
    _request E "GET" ("/api/1/vehicles/" +:+ pretty vehicle_id +:+ "/vehicle_data") in
  match result with
  | JNull => ret (Ok JNull)
  | _ => ret (py_get result "response" JNull)
  end.

(** The [for v in vehicles] loop of [wake_vehicle]: [true] is its
    [return True]. *)
Fixpoint find_online (vehicle_id : Z) (vehicles : list json) : py bool :=
  match vehicles with
  | [] => Ok false
  | v :: rest =>
      match py_get v "id" JNull with
      | Err e => Err e
      | Ok id =>
          if py_eq_int id vehicle_id then
            match py_get v "state" JNull with
            | Err e => Err e
            | Ok state =>
                if py_eq_str state "online" then Ok true
                else find_online vehicle_id rest
            end
          else find_online vehicle_id rest
      end
  end.

(** [while elapsed < max_wait] in [wake_vehicle].  [fuel] bounds the
    number of iterations; the test of the loop ends it before the fuel
    does (see [wake_loop_fuel]). *)
Fixpoint wake_loop (fuel : nat) (vehicle_id max_wait interval elapsed : Z)
    : P bool :=
  if elapsed <? max_wait then
    match fuel with
    | O => ret (Ok false)
    | S fuel =>
        time_sleep interval >>
        let elapsed := elapsed + interval in
        let? vehicles := list_vehicles in
        let! vehicles := py_iter vehicles in
        match find_online vehicle_id vehicles with
        | Err e => ret (Err e)
        | Ok true => ret (Ok true)       (* Vehicle is now online *)
        | Ok false => wake_loop fuel vehicle_id max_wait interval elapsed
        end
    end
  else
    (* Vehicle did not wake within max_wait *)
    ret (Ok false).

Definition wake_vehicle (vehicle_id : Z) : P bool :=
  (* Sending wake command; what comes back is not looked at *)
  _request E "POST" ("/api/1/vehicles/" +:+ pretty vehicle_id +:+ "/wake_up") >>
  (* Poll until online or timeout *)
  let max_wait := 60 in
  let interval := 5 in
  let elapsed := 0 in
  wake_loop 12 vehicle_id max_wait interval elapsed.

End TeslaClientMethods.

(** ** A [SleepTracker] in use *)

(** The calls that change a [SleepTracker]. *)
Inductive tracker_call : Type :=
| UpdateState (state : string)
| RecordError
| RecordSuccessfulFetch (now : Z).

Definition run_tracker_call (t : SleepTracker) (c : tracker_call) : SleepTracker :=
  match c with
  | UpdateState state => update_state state t
  | RecordError => record_error t
  | RecordSuccessfulFetch now => record_successful_fetch now t
  end.

(** The number of [record_error] since the last [update_state]. *)
Fixpoint errors_since_update (calls : list tracker_call) : nat :=
  match calls with
  | [] => 0
  | UpdateState _ :: _ => 0
  | RecordError :: rest => S (errors_since_update rest)
  | RecordSuccessfulFetch _ :: rest => errors_since_update rest
  end.

(** ** More vocabulary *)

(** The seconds spent in [time.sleep] so far. *)
Definition slept_for (s : State) : Z :=
  foldr (λ ev acc, match ev with EvSleep d => d + acc | _ => acc end) 0 (trace s).

(** An answer of the fleet API that [_request] retries with backoff: no
    answer, a 5xx, or a 200 whose body is not JSON. *)
Definition retryable (x : exchange) : bool :=
  match result x with
  | NoAnswer => true
  | Answered r =>
      (500 <=? status_code r)
      || ((status_code r =? 200) && match body r with None => true | Some _ => false end)
  end.

(** A status that ends [_request] with [None] on the spot, on attempt
    [attempt]: 408, or anything that is not 200, not 429, not a 5xx and not
    the 401 of a first attempt. *)
Definition terminal_status (attempt : nat) (status : Z) : bool :=
  negb (status =? 200)
  && negb ((status =? 401) && (attempt =? 0)%nat)
  && negb (status =? 429)
  && negb (500 <=? status).

(** The record that a grant [data] received at time [now] becomes. *)
Definition token_record (data : dict) (access refresh : json) (expires_in now : Z)
    : dict :=
  <["access_token" := access]>
  (<["refresh_token" := refresh]>
  (<["expires_at" := JNum (now + expires_in)]>
  (<["token_type" := dict_get data "token_type" (JStr "Bearer")]>
  (<["created_at" := JNum now]> ∅)))).

(** The state a save that returns leaves. *)
Definition saved (E : Env) (td : dict) (s : State) : State :=
  {| clock := clock s;
     fs := <[token_file_path (config E) := json_dump E td]> (fs s);
     token_pos := token_pos s; api_pos := api_pos s;
     io_pos := (io_pos s + 5)%nat;
     _token_data := Some td;
     trace := trace s ++ [EvSave td] |}.

(** The answer [x] of the token endpoint is a grant: a 200 whose body is a
    JSON object with both tokens and a lifetime that is a number (3600 when
    the field is absent). *)
Definition grants (x : exchange) (data : dict) (access refresh : json)
    (expires_in : Z) : Prop :=
  ∃ r, result x = Answered r ∧ status_code r = 200
       ∧ body r = Some (JObj data)
       ∧ data !! "access_token" = Some access
       ∧ data !! "refresh_token" = Some refresh
       ∧ as_number (dict_get data "expires_in" (JNum 3600)) = Some expires_in.

(** Nothing but files and the credential changed: what [save_token] keeps. *)
Definition same_session (s s' : State) : Prop :=
  clock s' = clock s ∧ token_pos s' = token_pos s ∧ api_pos s' = api_pos s
  ∧ slept_for s' = slept_for s.


(** The paths of [get_vehicle_data] and [wake_vehicle]. *)
Definition data_path (vehicle_id : Z) : string :=
  "/api/1/vehicles/" +:+ pretty vehicle_id +:+ "/vehicle_data".

Definition wake_path (vehicle_id : Z) : string :=
  "/api/1/vehicles/" +:+ pretty vehicle_id +:+ "/wake_up".

(** The state after one poll of [wake_vehicle] that got an answer at once:
    a sleep, then the request of [list_vehicles]. *)
Definition polled (E : Env) (interval : Z) (s : State) : State :=
  sent E "GET" "/api/1/vehicles" (held_token s) (slept interval s).

(** The answer of the fleet API at [api_pos s + i] lists the vehicles [l],
    none of which is vehicle [vehicle_id] online. *)
Definition lists_not_online (E : Env) (vehicle_id : Z) (s : State) (i : nat)
    : Prop :=
  ∃ r d l, result (api_net E (api_pos s + i)) = Answered r
           ∧ status_code r = 200 ∧ body r = Some (JObj d)
           ∧ d !! "response" = Some (JArr l)
           ∧ find_online vehicle_id l = Ok false.

Definition lists_online (E : Env) (vehicle_id : Z) (s : State) (i : nat)
    : Prop :=
  ∃ r d l, result (api_net E (api_pos s + i)) = Answered r
           ∧ status_code r = 200 ∧ body r = Some (JObj d)
           ∧ d !! "response" = Some (JArr l)
           ∧ find_online vehicle_id l = Ok true.

(** What [load_token] returned or raised, and the state it left. *)
Definition load_result (x : load_end) : res bool :=
  match x with
  | Ended r _ => r
  | Held _ _ => Ret true
  end.

Definition load_state (x : load_end) : State :=
  match x with
  | Ended _ s | Held _ s => s
  end.

(** The credential of a state as the Python value it is. *)
Definition as_json (d : option dict) : json :=
  match d with
  | Some d => JObj d
  | None => JNull
  end.

(** The value of [self._token_data] after [load_token]. *)
Definition load_held (x : load_end) : json :=
  match x with
  | Ended _ s => as_json (_token_data s)
  | Held v _ => v
  end.

(** The answer [x] of the token endpoint is one [exchange_code] accepts: an
    answer [r] that [raise_for_status] lets through, whose body is a JSON
    object with both tokens and a lifetime that is a number (3600 when the
    field is absent). *)
Definition accepts (x : exchange) (r : response) (data : dict)
    (access refresh : json) (expires_in : Z) : Prop :=
  result x = Answered r
  ∧ (status_code r < 400 ∨ 600 ≤ status_code r)
  ∧ body r = Some (JObj data)
  ∧ data !! "access_token" = Some access
  ∧ data !! "refresh_token" = Some refresh
  ∧ as_number (dict_get data "expires_in" (JNum 3600)) = Some expires_in.

(** ** More examples: the fleet API misbehaving, a vehicle that wakes *)

Module Cases.

(** A 429 with the given [Retry-After]. *)
Definition rate_limited (header : option (option Z)) : exchange :=
  {| latency := 0;
     result := Answered {| status_code := 429; body := None;
                           retry_after := header |} |}.

(** The listing of one vehicle in the given state. *)
Definition vehicle (state : string) : json :=
  JObj (<["id" := JNum 7]> (<["state" := JStr state]> ∅)).

Definition listing_of (vs : json) : dict := <["response" := vs]> ∅.

Definition listing (state : string) : json :=
  JObj (listing_of (JArr [vehicle state])).

Definition ok (v : json) : response :=
  {| status_code := 200; body := Some v; retry_after := None |}.

(** The answer to a wake command. *)
Definition woken : json := JObj (<["response" := JObj (<["state" := JStr "asleep"]> ∅)]> ∅).

(* the fleet API does not know the path *)
Definition not_found : Env := Demo.env [] [Demo.answer 404 None] [].
(* it throttles with a Retry-After that is an HTTP date *)
Definition http_date : Env := Demo.env [] [rate_limited (Some None)] [].
(* no answer, a 200 with a body that is not JSON, a 502 *)
Definition unreachable : Env :=
  Demo.env [] [Demo.no_answer; Demo.answer 200 None; Demo.answer 502 None] [].
(* ... but the disk is full *)
Definition granting_disk_full : Env :=
  Demo.env [Demo.answer 200 (Some Demo.grant)] [] [(Write, 3%nat)].
(* the fleet API lists the vehicle, online *)
Definition listed : Env := Demo.env [] [Demo.answer 200 (Some Demo.vehicles)] [].
(* it answers with a bare list *)
Definition bare_list : Env := Demo.env [] [Demo.answer 200 (Some (JArr []))] [].
(* the vehicle never wakes *)
Definition sleeper : Env :=
  Demo.env []
    (Demo.answer 200 (Some woken)
     :: replicate 12 (Demo.answer 200 (Some (listing "asleep")))) [].
(* the vehicle is online at the third poll *)
Definition waking : Env :=
  Demo.env []
    [Demo.answer 200 (Some woken);
     Demo.answer 200 (Some (listing "asleep"));
     Demo.answer 200 (Some (listing "asleep"));
     Demo.answer 200 (Some (listing "online"))] [].
(* the listing has no vehicles, only a null *)
Definition null_listing : Env :=
  Demo.env []
    [Demo.answer 200 (Some woken);
     Demo.answer 200 (Some (JObj (listing_of JNull)))] [].

(** What the token endpoint grants in [Demo.grant], and the record of a
    grant for five minutes only. *)
Definition grant_data : dict :=
  <["access_token" := JStr "at-2"]>
  (<["refresh_token" := JStr "rt-2"]>
  (<["expires_in" := JNum 3600]> ∅)).

Definition short_lived : dict :=
  token_record grant_data (JStr "at-2") (JStr "rt-2") 300 1700000000.

(** A process without a credential, one whose credential has no expiry,
    one whose expiry is not a number, one with a short-lived credential. *)
Definition logged_out : State := Demo.holding None 1700000000.
Definition no_expiry : State :=
  Demo.holding (Some (delete "expires_at" Demo.td)) 1700000000.
Definition bad_expiry : State :=
  Demo.holding (Some (<["expires_at" := JStr "soon"]> Demo.td)) 1700000000.

Definition hurried : State := Demo.holding (Some short_lived) 1700000000.

(** A process that holds [Demo.td] and finds the given text in the
    credential file; a byte that is not UTF-8. *)
Definition finding (content : string) : State :=
  {| clock := 1700000000;
     fs := {[ token_file_path Demo.cfg := content ]};
     token_pos := 0; api_pos := 0; io_pos := 0;
     _token_data := Some Demo.td;
     trace := [] |}.

Definition stray_byte : string := String (Ascii.ascii_of_nat 255) EmptyString.

(** Calls a tracker received: five errors since the last observation,
    with a fetch in between; and six observations with an error each. *)
Definition bumpy : list tracker_call :=
  [RecordError; UpdateState "online"; RecordError; RecordError;
   UpdateState "online"; RecordError; RecordError;
   (RecordSuccessfulFetch 1700000000); RecordError; RecordError; RecordError].

Definition six_nights : list string :=
  ["asleep"; "asleep"; "asleep"; "asleep"; "asleep"; "asleep"].

(** The state after the wake command of vehicle 7 was answered. *)
Definition commanded (E : Env) : State :=
  sent E "POST" (wake_path 7) (JStr "at-1") Demo.fresh.

End Cases.

(** * Properties *)

(** ** Running computations *)

Lemma bind_ret {A B} (m : M A) (k : A → M B) s a s' :
  m s = (Ret a, s') → bind m k s = k a s'.
Proof. intros H. unfold bind. by rewrite H. Qed.

Lemma bind_raise {A B} (m : M A) (k : A → M B) s e s' :
  m s = (Raise e, s') → bind m k s = (Raise e, s').
Proof. intros H. unfold bind. by rewrite H. Qed.

Lemma count_log p ev s :
  count p (log_event ev s) = (count p s + (if p ev then 1 else 0))%nat.
Proof.
  unfold count. cbn. rewrite List.filter_app, length_app. cbn.
  destruct (p ev); reflexivity.
Qed.

(** ** Relations that every step of a computation respects *)

Section Frame.
Context (R : relation State) (allowed : event → Prop).
Hypothesis R_refl : ∀ s, R s s.
Hypothesis R_trans : ∀ s1 s2 s3, R s1 s2 → R s2 s3 → R s1 s3.
Hypothesis R_clock : ∀ t s, R s (set_clock t s).
Hypothesis R_fs : ∀ f s, R s (set_fs f s).
Hypothesis R_token_pos : ∀ n s, R s (set_token_pos n s).
Hypothesis R_api_pos : ∀ n s, R s (set_api_pos n s).
Hypothesis R_io_pos : ∀ n s, R s (set_io_pos n s).
Hypothesis R_token_data : ∀ d s, R s (set_token_data d s).
Hypothesis R_log : ∀ ev s, allowed ev → R s (log_event ev s).

Lemma track_ret {A} (a : A) : track R (ret a).
Proof. intros s. apply R_refl. Qed.

Lemma track_raise {A} e : track R (@raise A e).
Proof. intros s. apply R_refl. Qed.

Lemma track_get : track R get.
Proof. intros s. apply R_refl. Qed.

Lemma track_time : track R time_time.
Proof. intros s. apply R_refl. Qed.

Lemma track_exists p : track R (os_path_exists p).
Proof. intros s. apply R_refl. Qed.

Lemma track_bind {A B} (m : M A) (k : A → M B) :
  track R m → (∀ a, track R (k a)) → track R (bind m k).
Proof.
  intros Hm Hk s. unfold bind. specialize (Hm s).
  destruct (m s) as [[a|e] s1]; cbn in *; [|done].
  eapply R_trans; [exact Hm | apply Hk].
Qed.

Lemma track_try_except {A} (m : M A) h :
  track R m → (∀ e k, h e = Some k → track R k) → track R (try_except m h).
Proof.
  intros Hm Hh s. unfold try_except. specialize (Hm s).
  destruct (m s) as [[a|e] s1]; cbn in *; [done|].
  destruct (h e) as [k|] eqn:He; [|done].
  eapply R_trans; [exact Hm | eapply Hh, He].
Qed.

Lemma track_attempt {A} (m : M A) : track R m → track R (attempt m).
Proof.
  intros Hm s. unfold attempt. specialize (Hm s). by destruct (m s).
Qed.

Lemma track_modify f : (∀ s, R s (f s)) → track R (modify f).
Proof. intros Hf s. apply Hf. Qed.

Local Ltac step :=
  first
    [ apply track_ret | apply track_raise | apply track_get
    | apply track_time | apply track_exists
    | apply track_modify; intros ?; solve [auto]
    | apply track_bind; [|intros ?]
    | apply track_attempt
    | apply track_try_except; [|intros [] ? [= <-]] ].

Lemma track_syscall E c : track R (syscall E c).
Proof.
  intros s. unfold syscall.
  destruct (io_fails E c (io_pos s)); apply R_io_pos.
Qed.

Lemma track_makedirs E : track R (os_makedirs E).
Proof. unfold os_makedirs. step; [apply track_syscall | step]. Qed.

Lemma track_fdopen E : track R (os_fdopen E).
Proof. unfold os_fdopen. step; [apply track_syscall | step]. Qed.

Lemma track_sleep d : allowed (EvSleep d) → track R (time_sleep d).
Proof.
  intros Hp. unfold time_sleep. destruct (d <? 0); [step|].
  intros s. cbn. eauto.
Qed.

Lemma track_write E q c : track R (write_and_close E q c).
Proof.
  intros s. unfold write_and_close.
  destruct (io_fails E Write (io_pos s)); cbn; eauto.
Qed.

Lemma track_mkstemp E : track R (mkstemp E).
Proof.
  unfold mkstemp. step; [apply track_syscall|]. step; [step|].
  destruct (fs _ !! _); [step|]. step; step.
Qed.

Lemma track_replace E a b : track R (os_replace E a b).
Proof.
  unfold os_replace. step; [apply track_syscall|]. step; [step|].
  destruct (fs _ !! _); step.
Qed.

Lemma track_unlink E a : track R (os_unlink E a).
Proof.
  unfold os_unlink. step; [apply track_syscall|]. step; [step|].
  destruct (fs _ !! _); step.
Qed.

Lemma track_open E a : track R (open_and_read E a).
Proof.
  unfold open_and_read. step; [apply track_syscall|]. step; [step|].
  destruct (fs _ !! _); step.
Qed.

Lemma track_post E rt : allowed (EvPost rt) → track R (requests_post E rt).
Proof.
  intros Hp s. unfold requests_post.
  destruct (result (token_net E (token_pos s))); cbn; eauto.
Qed.

Lemma track_session_request E m p tok :
  allowed (EvRequest m p tok) → track R (session_request E m p tok).
Proof.
  intros Hp s. unfold session_request.
  destruct (result (api_net E (api_pos s))); cbn; eauto.
Qed.

Lemma track_resp_json r : track R (resp_json r).
Proof. unfold resp_json. destruct (body r); step. Qed.

Lemma track_save E td : allowed (EvSave td) → track R (save_token E td).
Proof.
  intros Hp. unfold save_token.
  step; [step|]. step; [apply track_makedirs|].
  step; [step; apply track_mkstemp|].
  destruct a1 as [tmp|e].
  - step.
    + step; [apply track_fdopen|].
      step; [apply track_write|]. step; [apply track_replace | step].
    + step; [|step]. step; [apply track_unlink | step].
  - destruct e; step.
Qed.

Lemma track_is_token_valid : track R is_token_valid.
Proof.
  unfold is_token_valid. step; [step|].
  destruct (_token_data a); [|step]. step; [step|].
  destruct (as_number _); step.
Qed.

Hypothesis sleep_allowed : ∀ d, allowed (EvSleep d).
Hypothesis post_allowed : ∀ v, allowed (EvPost v).
Hypothesis save_allowed : ∀ d, allowed (EvSave d).

Lemma track_refresh_attempt E rt : track R (refresh_attempt E rt).
Proof.
  unfold refresh_attempt. step; [|step].
  step; [by apply track_post|].
  destruct (status_code a =? 200); [|step].
  step; [apply track_resp_json|].
  destruct a0; try step.
  destruct (m !! "access_token"); [|step].
  destruct (m !! "refresh_token"); [|step].
  step; [step|]. destruct (as_number _); [|step].
  step; [step|]. step; [by apply track_save | step].
Qed.

Lemma track_refresh_loop E rt n l b : track R (refresh_loop E rt n l b).
Proof.
  revert b. induction l as [|a l IH]; intros b; cbn.
  - step.
  - step; [apply track_refresh_attempt|].
    destruct a0; [step|].
    destruct (_ <? _); [|apply IH].
    step; [by apply track_sleep | apply IH].
Qed.

(** What [refresh_access_token] does once it has logged its own call. *)
Lemma track_refresh_body E :
  track R (let! s := get in
           match _token_data s with
           | None => ret tt
           | Some td =>
               match td !! "refresh_token" with
               | None => ret tt
               | Some refresh_token =>
                   refresh_loop E refresh_token (Z.of_nat 5) (range 5) 1
               end
           end).
Proof.
  step; [step|]. destruct (_token_data a); [|step].
  destruct (_ !! _); [apply track_refresh_loop | step].
Qed.

Hypothesis refresh_allowed : allowed EvRefresh.

Lemma track_refresh_access_token E : track R (refresh_access_token E).
Proof. unfold refresh_access_token. step; [step | apply track_refresh_body]. Qed.

Lemma track_access_token E : track R (access_token E).
Proof.
  unfold access_token. step; [step|]. destruct (_token_data a); [|step].
  step; [apply track_is_token_valid|].
  step. { destruct (negb a0); [apply track_refresh_access_token | step]. }
  step; [step|]. destruct (_token_data a2); [|step]. destruct (decide _); step.
Qed.

Hypothesis request_allowed : ∀ m p tok, allowed (EvRequest m p tok).

Lemma track_on_response E n a b r : track R (on_response E n a b r).
Proof.
  unfold on_response. cbv zeta.
  destruct (_ =? 200). { step; [apply track_resp_json | step]. }
  destruct (_ && _). { step; [apply track_refresh_access_token | step]. }
  destruct (_ =? 408); [step|].
  destruct (_ =? 429).
  { destruct (default _ _); [|step]. step; [by apply track_sleep | step]. }
  destruct (_ >=? 500); [|step].
  destruct (_ <? _); [|step]. step; [by apply track_sleep | step].
Qed.

Lemma track_except_request_exception n a b :
  track R (if Z.of_nat a <? n - 1
           then time_sleep (Z.min b 60) >> ret (Continue (b * 2))
           else ret (Continue b)).
Proof. destruct (_ <? _); [|step]. step; [by apply track_sleep | step]. Qed.

Lemma track_request_attempt E m p n a b tok :
  track R (request_attempt E m p n a b tok).
Proof.
  unfold request_attempt. step.
  - step; [by apply track_session_request | apply track_on_response].
  - apply track_except_request_exception.
Qed.

(** Whatever the answer, the request is sent first. *)
Lemma track_after_sent E m p n a b tok s :
  R (sent E m p tok s) (request_attempt E m p n a b tok s).2.
Proof.
  unfold request_attempt, try_except, bind at 1, session_request.
  fold (sent E m p tok s).
  destruct (result (api_net E (api_pos s))) as [r|].
  - pose proof (track_on_response E n a b r (sent E m p tok s)) as H.
    destruct (on_response E n a b r (sent E m p tok s)) as [[c|x] s1];
      [done|]. cbn in H.
    destruct x; try done.
    eapply R_trans; [exact H|]. apply track_except_request_exception.
  - apply track_except_request_exception.
Qed.

Lemma track_request_loop E m p n l b : track R (request_loop E m p n l b).
Proof.
  revert b. induction l as [|a l IH]; intros b; cbn; [step|].
  step; [apply track_access_token|].
  destruct a0; try step.
  all: try apply track_request_attempt.
  all: destruct a0; [step | apply IH].
Qed.
End Frame.

(** ** Calls that leave a counter of the trace alone *)

Ltac count_frame :=
  try solve
    [ done
    | intros; cbn; congruence
    | intros ? ? Hev; rewrite count_log, Hev; lia
    | auto ].

Section Silent.
Variable p : event → bool.
Hypothesis p_sleep : ∀ d, p (EvSleep d) = false.
Hypothesis p_post : ∀ v, p (EvPost v) = false.
Hypothesis p_save : ∀ d, p (EvSave d) = false.

Lemma silent_save E td : silent p (save_token E td).
Proof.
  unfold silent.
  eapply track_save with (allowed := λ ev, p ev = false); count_frame.
Qed.

Lemma silent_refresh_loop E rt n l b : silent p (refresh_loop E rt n l b).
Proof.
  unfold silent.
  eapply track_refresh_loop with (allowed := λ ev, p ev = false); count_frame.
Qed.

Lemma silent_refresh_access_token E :
  p EvRefresh = false → silent p (refresh_access_token E).
Proof.
  intros Hr. unfold silent.
  eapply track_refresh_access_token with (allowed := λ ev, p ev = false);
    count_frame.
Qed.
End Silent.

(** One call of [refresh_access_token] is one [EvRefresh] in the trace, no
    more, however the call ends. *)
Lemma refresh_access_token_counted E s :
  count is_refresh (refresh_access_token E s).2 = (count is_refresh s + 1)%nat.
Proof.
  unfold refresh_access_token, bind at 1, modify at 1.
  transitivity (count is_refresh (log_event EvRefresh s));
    [|by rewrite count_log].
  eapply track_refresh_body with (allowed := λ ev, is_refresh ev = false);
    count_frame.
Qed.

(** ** The trace only grows *)

Lemma extends_refl s : extends s s.
Proof. exists []. by rewrite List.app_nil_r. Qed.

Lemma extends_trans s1 s2 s3 : extends s1 s2 → extends s2 s3 → extends s1 s3.
Proof.
  intros [evs1 H1] [evs2 H2]. exists (evs1 ++ evs2)%list.
  by rewrite H2, H1, <- List.app_assoc.
Qed.

Ltac extends_frame :=
  try solve
    [ done
    | exact extends_refl
    | exact extends_trans
    | intros; exists []; cbn; by rewrite List.app_nil_r
    | intros ev ? _; by exists [ev] ].

Lemma extends_request_loop E m p n l b : track extends (request_loop E m p n l b).
Proof.
  eapply track_request_loop with (allowed := λ _, True); extends_frame.
Qed.

Lemma extends_request_attempt E m p n a b tok :
  track extends (request_attempt E m p n a b tok).
Proof.
  eapply track_request_attempt with (allowed := λ _, True); extends_frame.
Qed.

(** ** [TeslaAuth]: reading the access token *)

Lemma is_token_valid_eval s td e :
  _token_data s = Some td → expires_at td = Some e →
  is_token_valid s = (Ret (clock s <? e - 300), s).
Proof.
  unfold expires_at, is_token_valid, bind, get, time_time. intros -> Hexp.
  cbn. by rewrite Hexp.
Qed.

Lemma dict_get_empty (td : dict) k :
  size td = 0%nat → dict_get td k JNull = JNull.
Proof.
  intros ->%map_size_empty_inv. unfold dict_get. by rewrite lookup_empty.
Qed.

(** The last statement of [access_token] hands out [held_token]. *)
Lemma access_token_return s :
  (let! s := get in
   match _token_data s with
   | Some td => if decide (size td = 0%nat) then ret JNull
                else ret (dict_get td "access_token" JNull)
   | None => ret JNull
   end) s = (Ret (held_token s), s).
Proof.
  unfold bind, get, held_token. destruct (_token_data s) as [td|]; [|done].
  destruct (decide _) as [Hz|]; [|done]. by rewrite dict_get_empty.
Qed.

Lemma access_token_none E s :
  _token_data s = None → access_token E s = (Ret JNull, s).
Proof. intros H. unfold access_token, bind, get. by rewrite H. Qed.

Lemma access_token_valid E s td e :
  _token_data s = Some td → expires_at td = Some e → clock s < e - 300 →
  access_token E s = (Ret (held_token s), s).
Proof.
  intros Htd Hexp Hlt. unfold access_token at 1.
  unfold bind at 1, get at 1. rewrite Htd.
  rewrite (bind_ret _ _ _ _ _ (is_token_valid_eval _ _ _ Htd Hexp)).
  replace (clock s <? e - 300) with true by (symmetry; apply Z.ltb_lt, Hlt).
  cbn [negb]. unfold bind at 1, ret at 1. apply access_token_return.
Qed.

Lemma access_token_due E s td e :
  _token_data s = Some td → expires_at td = Some e → e - 300 ≤ clock s →
  access_token E s =
    match refresh_access_token E s with
    | (Ret _, s') => (Ret (held_token s'), s')
    | (Raise x, s') => (Raise x, s')
    end.
Proof.
  intros Htd Hexp Hle. unfold access_token at 1.
  unfold bind at 1, get at 1. rewrite Htd.
  rewrite (bind_ret _ _ _ _ _ (is_token_valid_eval _ _ _ Htd Hexp)).
  replace (clock s <? e - 300) with false by (symmetry; apply Z.ltb_ge, Hle).
  cbn [negb]. unfold bind at 1.
  destruct (refresh_access_token E s) as [[[]|x] s']; [|done].
  apply access_token_return.
Qed.

(** Without a refresh token the call returns at once: the held credential
    stays as it is. *)
Lemma refresh_access_token_no_refresh_token E s td :
  _token_data s = Some td → td !! "refresh_token" = None →
  refresh_access_token E s = (Ret tt, log_event EvRefresh s).
Proof.
  intros Htd Hrt. unfold refresh_access_token, bind, modify, get. cbn.
  by rewrite Htd, Hrt.
Qed.

Lemma refresh_access_token_no_credential E s :
  _token_data s = None →
  refresh_access_token E s = (Ret tt, log_event EvRefresh s).
Proof.
  intros Htd. unfold refresh_access_token, bind, modify, get. cbn.
  by rewrite Htd.
Qed.

(** C1. A held credential whose [expires_at] lies more than 300 seconds after
    the current time: reading [access_token] returns the held token and
    leaves the whole state, trace included, as it was (no refresh, no
    request).  A held credential whose [expires_at] is at most 300 seconds
    after the current time, or in the past: the read makes exactly one call
    of [refresh_access_token], and what it then returns is read from the
    state that call left. *)
Theorem access_token_refresh_margin E s td e :
  _token_data s = Some td → expires_at td = Some e →
  (clock s + 300 < e →
     access_token E s = (Ret (dict_get td "access_token" JNull), s))
  ∧ (e ≤ clock s + 300 →
     count is_refresh (access_token E s).2 = (count is_refresh s + 1)%nat
     ∧ access_token E s =
         match refresh_access_token E s with
         | (Ret _, s') => (Ret (held_token s'), s')
         | (Raise x, s') => (Raise x, s')
         end).
Proof.
  intros Htd Hexp. split; intros Hclock.
  - rewrite (access_token_valid E s td e) by (done || lia).
    unfold held_token. by rewrite Htd.
  - assert (Hdue := access_token_due E s td e Htd Hexp ltac:(lia)).
    split; [|done]. rewrite Hdue.
    pose proof (refresh_access_token_counted E s) as Hc.
    by destruct (refresh_access_token E s) as [[[]|x] s'].
Qed.

(** C9. A held credential that is due for refresh but has no [refresh_token]
    field: [refresh_access_token] returns at once and leaves the credential
    as it is, and the read of [access_token] returns the stale access token
    of that credential, not [None]. *)
Theorem access_token_stale_without_refresh_token E s td e tok :
  _token_data s = Some td → expires_at td = Some e → e ≤ clock s + 300 →
  td !! "refresh_token" = None → td !! "access_token" = Some tok →
  refresh_access_token E s = (Ret tt, log_event EvRefresh s)
  ∧ _token_data (log_event EvRefresh s) = Some td
  ∧ access_token E s = (Ret tok, log_event EvRefresh s).
Proof.
  intros Htd Hexp Hclock Hrt Htok.
  pose proof (refresh_access_token_no_refresh_token E s td Htd Hrt) as Hr.
  split; [done|]. split; [done|].
  rewrite (access_token_due E s td e) by (done || lia).
  rewrite Hr. unfold held_token, dict_get. cbn. by rewrite Htd, Htok.
Qed.

(** ** [TeslaAuth.save_token] *)

Ltac run_save :=
  unfold save_token, os_makedirs, os_fdopen, mkstemp, os_replace, os_unlink,
    write_and_close, syscall, try_except, attempt, bind, modify, get, ret, raise;
  cbn;
  repeat first
    [ rewrite lookup_insert_eq; cbn
    | match goal with
      | |- context [io_fails ?E ?c ?n] => destruct (io_fails E c n) eqn:?; cbn
      | |- context [fs ?s !! tmp_name ?E ?n] =>
          destruct (fs s !! tmp_name E n) eqn:?; cbn
      end ].

(** A save that raises leaves the held credential alone. *)
Lemma save_token_raise_token_data E td s e s' :
  save_token E td s = (Raise e, s') → _token_data s' = _token_data s.
Proof. run_save; by intros [= <- <-]. Qed.

(** A save that raises leaves every file that existed as it was. *)
Lemma save_token_raise_files E td s e s' p c :
  save_token E td s = (Raise e, s') → fs s !! p = Some c → fs s' !! p = Some c.
Proof.
  run_save; intros [= <- <-] Hp; cbn; try done.
  all: assert (p ≠ tmp_name E (S (io_pos s))) by congruence.
  all: rewrite ?lookup_delete_ne, ?lookup_insert_ne by done; done.
Qed.

(** A save that raises leaves no temporary file, unless removing it failed.
    The [os.unlink] of the clean-up, when there is one, is the last system
    call the save made. *)
Lemma save_token_raise_cleanup E td s e s' :
  save_token E td s = (Raise e, s') →
  io_fails E Unlink (pred (io_pos s')) = false → fs s' = fs s.
Proof.
  intros Hrun Hu. revert Hrun.
  run_save; intros [= <- <-]; cbn in Hu |- *; try done; try congruence.
  all: rewrite ?insert_insert_eq, delete_insert_eq; by apply delete_id.
Qed.

(** What a save raises: the [OSError] of the failing call, or, when
    [mkstemp] itself failed, the [UnboundLocalError] of the clean-up, which
    reads [tmp_path] before anything was bound to it. *)
Lemma save_token_raise_exn E td s e s' :
  save_token E td s = (Raise e, s') →
  e = OSError ∨ e = UnboundLocalError "tmp_path".
Proof. run_save; intros [= <- <-]; auto. Qed.

(** A failing step is never swallowed. *)
Lemma save_token_step_fails E td s :
  save_step_fails E (io_pos s) = true →
  ∃ e s', save_token E td s = (Raise e, s').
Proof.
  unfold save_step_fails.
  replace (io_pos s + 1)%nat with (S (io_pos s)) by lia.
  replace (io_pos s + 2)%nat with (S (S (io_pos s))) by lia.
  replace (io_pos s + 3)%nat with (S (S (S (io_pos s)))) by lia.
  replace (io_pos s + 4)%nat with (S (S (S (S (io_pos s))))) by lia.
  run_save; intros Hf; cbn in Hf; try congruence; eauto.
Qed.

(** A save that returns has put the serialised record under the credential
    path and adopted the record in memory. *)
Lemma save_token_return E td s s' :
  save_token E td s = (Ret tt, s') →
  fs s' !! token_file_path (config E) = Some (json_dump E td)
  ∧ _token_data s' = Some td.
Proof.
  run_save; intros [= <-]; cbn.
  rewrite insert_insert_eq, lookup_insert_eq. done.
Qed.

(** C2, as amended.  Whenever one of the system calls of a save fails, the
    save raises.  Whenever a save raises, the credential held in memory is
    the one held before; every file that existed before, whatever its path
    and so the persisted record among them, has the content it had; and the
    temporary file is removed unless removing it fails as well: when the
    [os.unlink] of the clean-up, which is then the last system call the save
    made, does not fail, the files are exactly those from before the call. *)
Theorem save_token_failure E td s :
  (save_step_fails E (io_pos s) = true →
     ∃ e s', save_token E td s = (Raise e, s'))
  ∧ ∀ e s', save_token E td s = (Raise e, s') →
      _token_data s' = _token_data s
      ∧ (∀ p c, fs s !! p = Some c → fs s' !! p = Some c)
      ∧ (io_fails E Unlink (pred (io_pos s')) = false → fs s' = fs s).
Proof.
  split; [apply save_token_step_fails|]. intros e s' H.
  split; [exact (save_token_raise_token_data _ _ _ _ _ H)|].
  split; [intros p c; exact (save_token_raise_files _ _ _ _ _ p c H)|].
  exact (save_token_raise_cleanup _ _ _ _ _ H).
Qed.

(** ** [load_token] *)

Lemma load_token_eval E s :
  load_token E s =
    match fs s !! token_file_path (config E) with
    | None => Ended (Ret false) s
    | Some c =>
        let s1 := set_io_pos (S (io_pos s)) s in
        if io_fails E Open (io_pos s) then Ended (Ret false) s1
        else
          match json_load E c with
          | Parsed (JObj d) => Ended (Ret true) (set_token_data (Some d) s1)
          | Parsed JNull => Ended (Ret true) (set_token_data None s1)
          | Parsed v => Held v s1
          | ParseRaises JSONDecodeError | ParseRaises OSError =>
              Ended (Ret false) s1
          | ParseRaises e => Ended (Raise e) s1
          end
    end.
Proof.
  unfold load_token, os_path_exists, read_json, open_and_read, syscall,
    bind, get, ret, raise.
  destruct (fs s !! token_file_path (config E)) as [c|] eqn:Hc; cbn; [|done].
  destruct (io_fails E Open (io_pos s)); cbn; [done|].
  rewrite Hc. by destruct (json_load E c) as [[]|[]].
Qed.

(** ** [TeslaAuth.refresh_access_token] *)

Lemma time_sleep_eval d s : 0 ≤ d → time_sleep d s = (Ret tt, slept d s).
Proof.
  intros Hd. unfold time_sleep.
  by replace (d <? 0) with false by (symmetry; apply Z.ltb_ge, Hd).
Qed.

Lemma refresh_access_token_eval E s :
  refresh_access_token E s =
    match _token_data s with
    | None => (Ret tt, log_event EvRefresh s)
    | Some td =>
        match td !! "refresh_token" with
        | None => (Ret tt, log_event EvRefresh s)
        | Some rt => refresh_loop E rt 5 (range 5) 1 (log_event EvRefresh s)
        end
    end.
Proof.
  unfold refresh_access_token, bind, modify, get.
  change (_token_data (log_event EvRefresh s)) with (_token_data s).
  destruct (_token_data s) as [td|]; [|done].
  by destruct (td !! "refresh_token").
Qed.

Lemma refresh_attempt_failed E rt s :
  failed_answer (token_net E (token_pos s)) = true →
  refresh_attempt E rt s = (Ret false, posted E rt s).
Proof.
  unfold failed_answer, refresh_attempt, try_except, bind, requests_post.
  destruct (result (token_net E (token_pos s))) as [r|]; [|done].
  destruct (status_code r =? 200); [|done]. cbn.
  unfold resp_json. by destruct (body r).
Qed.

Lemma refresh_attempt_partial E rt s :
  partial_answer (token_net E (token_pos s)) = true →
  ∃ e, refresh_attempt E rt s = (Raise e, posted E rt s)
       ∧ (e = TypeError ∨ e = KeyError "access_token"
          ∨ e = KeyError "refresh_token").
Proof.
  unfold partial_answer, refresh_attempt, try_except, bind, requests_post.
  destruct (result (token_net E (token_pos s))) as [r|]; [|done].
  destruct (status_code r =? 200); [|done]. cbn.
  unfold resp_json. destruct (body r) as [v|]; [|done]. cbn.
  destruct v as [| | | | |data]; cbn; eauto.
  destruct (data !! "access_token"); cbn; eauto.
  destruct (data !! "refresh_token"); cbn; eauto. done.
Qed.

Lemma posted_files E rt s :
  fs (posted E rt s) = fs s
  ∧ count is_save (posted E rt s) = count is_save s
  ∧ io_pos (posted E rt s) = io_pos s.
Proof.
  unfold posted. rewrite count_log. cbn. unfold count. cbn.
  split_and!; done || lia.
Qed.

Lemma slept_files d s :
  fs (slept d s) = fs s
  ∧ count is_save (slept d s) = count is_save s
  ∧ io_pos (slept d s) = io_pos s.
Proof.
  unfold slept. rewrite count_log. cbn. unfold count. cbn.
  split_and!; done || lia.
Qed.

(** A refresh in which the first answer that is not a failed attempt is a
    200 without both fields never gets to [save_token]. *)
Lemma refresh_loop_partial E rt n l : ∀ b s j,
  (token_pos s ≤ j)%nat →
  (∀ k, (token_pos s ≤ k < j)%nat → failed_answer (token_net E k) = true) →
  partial_answer (token_net E j) = true →
  let s' := (refresh_loop E rt n l b s).2 in
  fs s' = fs s ∧ count is_save s' = count is_save s ∧ io_pos s' = io_pos s.
Proof.
  induction l as [|a l IH]; intros b s j Hj Hfail Hpart; cbn; [done|].
  destruct (posted_files E rt s) as (P1 & P2 & P3).
  destruct (decide (j = token_pos s)) as [->|Hne].
  - destruct (refresh_attempt_partial E rt s Hpart) as (e & He & _).
    by rewrite (bind_raise _ _ _ _ _ He).
  - rewrite (bind_ret _ _ _ _ _ (refresh_attempt_failed E rt s
               (Hfail (token_pos s) ltac:(lia)))).
    destruct (_ <? _).
    + unfold bind, time_sleep. destruct (_ <? 0); [done|].
      change (modify _ (posted E rt s))
        with (Ret tt, slept (Z.min b 60) (posted E rt s)).
      destruct (slept_files (Z.min b 60) (posted E rt s)) as (S1 & S2 & S3).
      rewrite <- P1, <- P2, <- P3, <- S1, <- S2, <- S3.
      apply (IH _ _ j); [cbn; lia | intros k Hk; apply Hfail; cbn in Hk; lia
                        | done].
    + rewrite <- P1, <- P2, <- P3.
      apply (IH _ _ j); [cbn; lia | intros k Hk; apply Hfail; cbn in Hk; lia
                        | done].
Qed.

(** C3. For every refresh: when the answer that ends the run of failed
    attempts is a 200 whose body lacks [access_token] or [refresh_token],
    [save_token] is not called, no system call on files is made, and the
    files, the persisted credential among them, are what they were. *)
Theorem refresh_partial_answer_not_saved E s j :
  (token_pos s ≤ j)%nat →
  (∀ k, (token_pos s ≤ k < j)%nat → failed_answer (token_net E k) = true) →
  partial_answer (token_net E j) = true →
  let s' := (refresh_access_token E s).2 in
  fs s' = fs s ∧ count is_save s' = count is_save s ∧ io_pos s' = io_pos s.
Proof.
  intros Hj Hfail Hpart. rewrite refresh_access_token_eval.
  assert (Hlog : count is_save (log_event EvRefresh s) = count is_save s).
  { rewrite count_log. cbn. lia. }
  destruct (_token_data s) as [td|]; [|done].
  destruct (td !! "refresh_token") as [rt|]; [|done].
  rewrite <- Hlog.
  by apply (refresh_loop_partial E rt 5 _ 1 (log_event EvRefresh s) j).
Qed.

(** Five failed attempts in a row: the loop runs to its end and drops the
    credential. *)
Lemma refresh_loop_exhausted E rt s :
  (∀ k, (token_pos s ≤ k < token_pos s + 5)%nat →
        failed_answer (token_net E k) = true) →
  ∃ s', refresh_loop E rt 5 (range 5) 1 s = (Ret tt, s')
    ∧ _token_data s' = None
    ∧ fs s' = fs s
    ∧ trace s' = (trace s ++
        [EvPost rt; EvSleep 1; EvPost rt; EvSleep 2; EvPost rt; EvSleep 4;
         EvPost rt; EvSleep 8; EvPost rt])%list.
Proof.
  intros Hfail. cbn [refresh_loop range seq].
  repeat
    (match goal with
     | |- context [bind (refresh_attempt E rt) ?k ?s0] =>
         rewrite (bind_ret _ k s0 _ _
                    (refresh_attempt_failed E rt s0
                       (Hfail (token_pos s0) ltac:(cbn; lia))))
     end;
     match goal with
     | |- context [Z.of_nat ?a <? 5 - 1] =>
         let b := eval vm_compute in (Z.of_nat a <? 5 - 1) in
         change (Z.of_nat a <? 5 - 1) with b
     end;
     cbv iota;
     try (match goal with
          | |- context [bind (time_sleep ?d) ?k ?s0] =>
              rewrite (bind_ret _ k s0 _ _ (time_sleep_eval d s0 ltac:(lia)))
          end)).
  eexists. split; [reflexivity|]. cbn.
  split; [done|]. split; [done|].
  by rewrite <- !List.app_assoc.
Qed.

Lemma request_no_credential E m p s :
  _token_data s = None → _request E m p s = (Ret JNull, s).
Proof.
  intros H. unfold _request. cbn [range seq request_loop].
  by rewrite (bind_ret _ _ _ _ _ (access_token_none E s H)).
Qed.

(** Nothing but [load_token] and [save_token] brings a credential back. *)
Lemma run_call_no_credential E s c :
  _token_data s = None → _token_data (run_call E s c) = None.
Proof.
  intros H. destruct c as [| | |m p]; cbn [run_call].
  - by rewrite access_token_none.
  - unfold is_token_valid, bind, get. by rewrite H.
  - by rewrite refresh_access_token_no_credential.
  - by rewrite request_no_credential.
Qed.

Lemma run_calls_no_credential E calls : ∀ s,
  _token_data s = None → _token_data (foldl (run_call E) s calls) = None.
Proof.
  induction calls as [|c calls IH]; intros s H; cbn [foldl]; [done|].
  apply IH, run_call_no_credential, H.
Qed.

(** C4. When all five attempts of a refresh fail, the call returns with the
    held credential discarded ([_token_data] is [None]) after five posts
    separated by sleeps of 1, 2, 4 and 8 seconds.  From then on, whatever is
    asked of the credential manager and the client short of [load_token] and
    [save_token], no credential is held and a read of [access_token] returns
    [None] and changes nothing. *)
Theorem refresh_exhausted_discards_credential E s td rt :
  _token_data s = Some td → td !! "refresh_token" = Some rt →
  (∀ k, (token_pos s ≤ k < token_pos s + 5)%nat →
        failed_answer (token_net E k) = true) →
  ∃ s', refresh_access_token E s = (Ret tt, s')
    ∧ _token_data s' = None
    ∧ trace s' = (trace s ++
        [EvRefresh; EvPost rt; EvSleep 1; EvPost rt; EvSleep 2; EvPost rt;
         EvSleep 4; EvPost rt; EvSleep 8; EvPost rt])%list
    ∧ ∀ calls, let s'' := foldl (run_call E) s' calls in
        _token_data s'' = None ∧ access_token E s'' = (Ret JNull, s'').
Proof.
  intros Htd Hrt Hfail. rewrite refresh_access_token_eval, Htd, Hrt.
  destruct (refresh_loop_exhausted E rt (log_event EvRefresh s) Hfail)
    as (s' & Hrun & Hnone & _ & Htrace).
  exists s'. split; [done|]. split; [done|]. split.
  - rewrite Htrace. cbn. by rewrite <- List.app_assoc.
  - intros calls s''.
    pose proof (run_calls_no_credential E calls s' Hnone) as H.
    split; [done|]. by apply access_token_none.
Qed.

(** ** No [RequestException] leaves [refresh_access_token] *)

Lemma throws_bind {A B} P (m : M A) (k : A → M B) :
  throws P m → (∀ a, throws P (k a)) → throws P (bind m k).
Proof.
  intros Hm Hk s e s'. unfold bind.
  destruct (m s) as [[a|x] s1] eqn:Hms.
  - apply Hk.
  - intros [= <- <-]. eapply Hm, Hms.
Qed.

Lemma throws_ret {A} P (a : A) : throws P (ret a).
Proof. by intros s e s'. Qed.

Lemma throws_modify P f : throws P (modify f).
Proof. by intros s e s'. Qed.

Lemma throws_get P : throws P get.
Proof. by intros s e s'. Qed.

Lemma throws_sleep d : throws (λ e, e ≠ RequestException) (time_sleep d).
Proof.
  intros s e s'. unfold time_sleep. destruct (d <? 0); [|done].
  by intros [= <- <-].
Qed.

Lemma throws_refresh_attempt E rt :
  throws (λ e, e ≠ RequestException) (refresh_attempt E rt).
Proof.
  intros s e s'. unfold refresh_attempt, try_except.
  destruct (bind _ _ s) as [[a|x] s1]; [done|].
  destruct x; by intros [= <- <-].
Qed.

Lemma throws_refresh_loop E rt n l : ∀ b,
  throws (λ e, e ≠ RequestException) (refresh_loop E rt n l b).
Proof.
  induction l as [|a l IH]; intros b; cbn [refresh_loop].
  - apply throws_modify.
  - apply throws_bind; [apply throws_refresh_attempt|]. intros [|].
    + apply throws_ret.
    + destruct (_ <? _); [|apply IH].
      apply throws_bind; [apply throws_sleep | intros _; apply IH].
Qed.

Lemma throws_refresh_access_token E :
  throws (λ e, e ≠ RequestException) (refresh_access_token E).
Proof.
  unfold refresh_access_token.
  apply throws_bind; [apply throws_modify | intros _].
  apply throws_bind; [apply throws_get | intros s].
  destruct (_token_data s) as [td|]; [|apply throws_ret].
  destruct (td !! "refresh_token"); [|apply throws_ret].
  apply throws_refresh_loop.
Qed.

(** ** [TeslaClient._request] *)

Lemma request_loop_token E m p n a rest b s tok s1 :
  access_token E s = (Ret tok, s1) → tok ≠ JNull →
  request_loop E m p n (a :: rest) b s =
    match request_attempt E m p n a b tok s1 with
    | (Ret (Return v), s2) => (Ret v, s2)
    | (Ret (Continue b'), s2) => request_loop E m p n rest b' s2
    | (Raise x, s2) => (Raise x, s2)
    end.
Proof.
  intros Htok Hne. cbn [request_loop]. rewrite (bind_ret _ _ _ _ _ Htok).
  destruct tok; try done; unfold bind;
    by destruct (request_attempt _ _ _ _ _ _ _ _) as [[[v|b']|x] s2].
Qed.

Lemma request_loop_no_token E m p n a rest b s s1 :
  access_token E s = (Ret JNull, s1) →
  request_loop E m p n (a :: rest) b s = (Ret JNull, s1).
Proof. intros Htok. cbn [request_loop]. by rewrite (bind_ret _ _ _ _ _ Htok). Qed.

Lemma session_request_answered E m p tok s r :
  result (api_net E (api_pos s)) = Answered r →
  session_request E m p tok s = (Ret r, sent E m p tok s).
Proof. intros H. unfold session_request. by rewrite H. Qed.

(** A 200 with a JSON body ends the call with that body. *)
Lemma request_attempt_200 E m p n a b tok s r v :
  result (api_net E (api_pos s)) = Answered r →
  status_code r = 200 → body r = Some v →
  request_attempt E m p n a b tok s = (Ret (Return v), sent E m p tok s).
Proof.
  intros Hr Hst Hbody. unfold request_attempt, try_except.
  rewrite (bind_ret _ _ _ _ _ (session_request_answered E m p tok s r Hr)).
  unfold on_response. rewrite Hst. cbn. unfold resp_json, bind. by rewrite Hbody.
Qed.

(** A 5xx is followed by a sleep of [min(backoff, 60)] and a doubled
    [backoff], except after the last attempt. *)
Lemma request_attempt_5xx E m p n a b tok s r :
  result (api_net E (api_pos s)) = Answered r →
  500 ≤ status_code r → 0 ≤ b →
  request_attempt E m p n a b tok s =
    if Z.of_nat a <? n - 1
    then (Ret (Continue (b * 2)), slept (Z.min b 60) (sent E m p tok s))
    else (Ret (Continue b), sent E m p tok s).
Proof.
  intros Hr Hst Hb. unfold request_attempt, try_except.
  rewrite (bind_ret _ _ _ _ _ (session_request_answered E m p tok s r Hr)).
  unfold on_response. cbv zeta.
  replace (status_code r =? 200) with false by (symmetry; apply Z.eqb_neq; lia).
  replace (status_code r =? 401) with false by (symmetry; apply Z.eqb_neq; lia).
  replace (status_code r =? 408) with false by (symmetry; apply Z.eqb_neq; lia).
  replace (status_code r =? 429) with false by (symmetry; apply Z.eqb_neq; lia).
  replace (status_code r >=? 500) with true by (symmetry; apply Z.geb_le; lia).
  cbn [andb]. destruct (_ <? _); [|done].
  by rewrite (bind_ret _ _ _ _ _ (time_sleep_eval (Z.min b 60) _ ltac:(lia))).
Qed.

(** A 401 on the first attempt: one forced refresh, no sleep, same
    [backoff]. *)
Lemma request_attempt_401_first E m p n b tok s r :
  result (api_net E (api_pos s)) = Answered r → status_code r = 401 →
  request_attempt E m p n 0 b tok s =
    match refresh_access_token E (sent E m p tok s) with
    | (Ret _, s') => (Ret (Continue b), s')
    | (Raise x, s') => (Raise x, s')
    end.
Proof.
  intros Hr Hst. unfold request_attempt, try_except.
  rewrite (bind_ret _ _ _ _ _ (session_request_answered E m p tok s r Hr)).
  unfold on_response. cbv zeta. rewrite Hst.
  change (401 =? 200) with false. change ((401 =? 401) && (Z.of_nat 0 =? 0)) with true.
  cbv iota. unfold bind.
  destruct (refresh_access_token E (sent E m p tok s)) as [[[]|x] s'] eqn:Href;
    [done|].
  (* a RequestException never leaves refresh_access_token *)
  pose proof (throws_refresh_access_token E _ _ _ Href).
  by destruct x.
Qed.

(** A 401 on a later attempt ends the call. *)
Lemma request_attempt_401_later E m p n a b tok s r :
  result (api_net E (api_pos s)) = Answered r → status_code r = 401 →
  a ≠ 0%nat →
  request_attempt E m p n a b tok s = (Ret (Return JNull), sent E m p tok s).
Proof.
  intros Hr Hst Ha. unfold request_attempt, try_except.
  rewrite (bind_ret _ _ _ _ _ (session_request_answered E m p tok s r Hr)).
  unfold on_response. cbv zeta. rewrite Hst.
  replace (Z.of_nat a =? 0) with false by (symmetry; apply Z.eqb_neq; lia).
  done.
Qed.

Lemma extends_after_sent E m p n a b tok s :
  extends (sent E m p tok s) (request_attempt E m p n a b tok s).2.
Proof.
  eapply track_after_sent with (allowed := λ _, True); extends_frame.
Qed.

(** An attempt with a token in hand puts its request on the wire. *)
Lemma request_loop_sends E m p n a rest b s tok s1 :
  access_token E s = (Ret tok, s1) → tok ≠ JNull →
  ∃ evs, trace (request_loop E m p n (a :: rest) b s).2
         = (trace s1 ++ EvRequest m p tok :: evs)%list.
Proof.
  intros Htok Hne. rewrite (request_loop_token _ _ _ _ _ _ _ _ _ _ Htok Hne).
  destruct (extends_after_sent E m p n a b tok s1) as [evs1 H1].
  destruct (request_attempt E m p n a b tok s1) as [[[v|b']|x] s2]; cbn in H1.
  1,3: exists evs1; cbn [snd]; rewrite H1; cbn; by rewrite <- List.app_assoc.
  destruct (extends_request_loop E m p n rest b' s2) as [evs2 H2].
  exists (evs1 ++ evs2)%list. rewrite H2, H1. cbn.
  by rewrite <- !List.app_assoc.
Qed.

(** C5, as amended.  A 401 on the first attempt makes the client call
    [refresh_access_token] exactly once, and no request is sent before that
    call is over.  If the call raises, so does the request.  Otherwise the
    second attempt starts in the very state the refresh left, with no sleep
    of the client in between and [backoff] unchanged: when no credential is
    held any more the request fails there and then, without a retry; when a
    token is handed out the same call is sent again with it.  A 401 on any
    later attempt ends the request with [None], nothing being sent or
    slept after it. *)
Theorem request_401 E m p :
  (∀ s tok s1 r,
     access_token E s = (Ret tok, s1) → tok ≠ JNull →
     result (api_net E (api_pos s1)) = Answered r → status_code r = 401 →
     let s2 := sent E m p tok s1 in
     ∃ out s3,
       refresh_access_token E s2 = (out, s3)
       ∧ count is_refresh s3 = (count is_refresh s2 + 1)%nat
       ∧ count is_request s3 = count is_request s2
       ∧ match out with
         | Raise x => _request E m p s = (Raise x, s3)
         | Ret _ =>
             _request E m p s = request_loop E m p 3 [1; 2]%nat 1 s3
             ∧ (_token_data s3 = None → _request E m p s = (Ret JNull, s3))
             ∧ (∀ tok' s4,
                  access_token E s3 = (Ret tok', s4) → tok' ≠ JNull →
                  ∃ evs, trace (_request E m p s).2
                         = (trace s4 ++ EvRequest m p tok' :: evs)%list)
         end)
  ∧ (∀ a rest b s tok s1 r,
       a ≠ 0%nat →
       access_token E s = (Ret tok, s1) → tok ≠ JNull →
       result (api_net E (api_pos s1)) = Answered r → status_code r = 401 →
       request_loop E m p 3 (a :: rest) b s = (Ret JNull, sent E m p tok s1)).
Proof.
  split.
  - intros s tok s1 r Htok Hne Hr Hst s2.
    assert (Hreq : _request E m p s =
              match refresh_access_token E s2 with
              | (Ret _, s') => request_loop E m p 3 [1; 2]%nat 1 s'
              | (Raise x, s') => (Raise x, s')
              end).
    { unfold _request. cbn [range seq].
      rewrite (request_loop_token _ _ _ _ _ _ _ _ _ _ Htok Hne).
      rewrite (request_attempt_401_first _ _ _ _ _ _ _ _ Hr Hst).
      fold s2. by destruct (refresh_access_token E s2) as [[[]|x] s']. }
    pose proof (refresh_access_token_counted E s2) as Hone.
    pose proof (silent_refresh_access_token is_request
                  ltac:(done) ltac:(done) ltac:(done) E ltac:(done) s2) as Hnone.
    destruct (refresh_access_token E s2) as [[[]|x] s3]; cbn in Hone, Hnone.
    + exists (Ret tt), s3. split_and!; try done.
      * intros Hdrop. rewrite Hreq.
        by apply request_loop_no_token, access_token_none.
      * intros tok' s4 Htok' Hne'. rewrite Hreq.
        by apply request_loop_sends.
    + exists (Raise x), s3. by split_and!.
  - intros a rest b s tok s1 r Ha Htok Hne Hr Hst.
    rewrite (request_loop_token _ _ _ _ _ _ _ _ _ _ Htok Hne).
    by rewrite (request_attempt_401_later _ _ _ _ _ _ _ _ _ Hr Hst Ha).
Qed.

(** ** Backoff of [_request] *)

Lemma backoff_trace_succ m p tok n a b k :
  backoff_trace m p tok n a b (S k) =
    (EvRequest m p tok ::
      (if Z.of_nat a <? n - 1 then [EvSleep (Z.min b 60)] else []) ++
      backoff_trace m p tok n (S a)
        (if Z.of_nat a <? n - 1 then b * 2 else b) k)%list.
Proof.
  unfold backoff_trace. cbn [seq flat_map].
  rewrite Nat.add_0_r, Z.pow_0_r, Z.mul_1_r. cbn [app]. f_equal.
  f_equal. rewrite <- seq_shift, flat_map_concat_map, map_map,
    <- flat_map_concat_map.
  apply flat_map_ext. intros i. f_equal.
  replace (a + S i)%nat with (S a + i)%nat by lia.
  destruct (Z.of_nat a <? n - 1) eqn:Ha.
  - rewrite Nat2Z.inj_succ, Z.pow_succ_r by lia.
    by rewrite Z.mul_assoc.
  - replace (Z.of_nat (S a + i) <? n - 1) with false; [done|].
    symmetry. apply Z.ltb_ge. apply Z.ltb_ge in Ha. lia.
Qed.



(** ** [SleepTracker] *)

(** C7. [get_poll_interval] returns the larger of the two intervals as soon
    as the error counter has reached 5, whatever the last known state, and
    so after five [record_error] in a row following an observation of
    [online].  Below 5 errors it returns the sleep interval when the last
    known state is [asleep], [offline] or [unknown], and the normal interval
    when it is [online]. *)
Theorem get_poll_interval_cases cfg t :
  (5 ≤ _consecutive_errors t →
     get_poll_interval cfg t =
       Z.max (poll_interval_seconds cfg) (sleep_poll_interval_seconds cfg))
  ∧ (_consecutive_errors t < 5 →
       _last_known_state t ∈ ["asleep"; "offline"; "unknown"] →
       get_poll_interval cfg t = sleep_poll_interval_seconds cfg)
  ∧ (_consecutive_errors t < 5 → _last_known_state t = "online" →
       get_poll_interval cfg t = poll_interval_seconds cfg)
  ∧ get_poll_interval cfg
      (Nat.iter 5 record_error (update_state "online" t)) =
      Z.max (poll_interval_seconds cfg) (sleep_poll_interval_seconds cfg).
Proof.
  unfold get_poll_interval. split_and!.
  - intros H. by replace (_ >=? 5) with true by (symmetry; apply Z.geb_le; lia).
  - intros H Hin.
    replace (_ >=? 5) with false by (symmetry; rewrite Z.geb_leb; apply Z.leb_gt; lia).
    by rewrite bool_decide_eq_true_2.
  - intros H Hon.
    replace (_ >=? 5) with false by (symmetry; rewrite Z.geb_leb; apply Z.leb_gt; lia).
    rewrite Hon. done.
  - done.
Qed.

Lemma record_errors_count n t :
  _consecutive_errors (Nat.iter n record_error t)
  = _consecutive_errors t + Z.of_nat n.
Proof.
  induction n as [|n IH]; [cbn; lia|].
  change (Nat.iter (S n) record_error t)
    with (record_error (Nat.iter n record_error t)).
  unfold record_error at 1. cbn [_consecutive_errors]. rewrite IH. lia.
Qed.

(** C10. [update_state] sets the error counter to 0 whatever the state it
    is given, the last known state included; so the errors recorded before
    an observation, however many, are forgotten, and the next interval is
    chosen by the observed state alone. *)
Theorem update_state_resets_errors cfg state t n :
  _consecutive_errors (update_state state t) = 0
  ∧ _consecutive_errors (update_state (_last_known_state t) t) = 0
  ∧ _consecutive_errors (Nat.iter n record_error t) = _consecutive_errors t + Z.of_nat n
  ∧ _consecutive_errors (update_state state (Nat.iter n record_error t)) = 0
  ∧ get_poll_interval cfg (update_state state (Nat.iter n record_error t)) =
      if bool_decide (state ∈ ["asleep"; "offline"; "unknown"])
      then sleep_poll_interval_seconds cfg
      else poll_interval_seconds cfg.
Proof.
  split_and!; try done. apply record_errors_count.
Qed.

(** * Further properties of the exporter *)

(** ** [load_token] *)

(** X1. [load_token] never changes a file.  It returns [True] exactly when
    the credential file exists, can be opened and [json.load] returns a
    value, of whatever kind: that value is then what is held, a record or
    not, and nothing at all for the text [null].  It returns [False]
    exactly when the file is missing, cannot be opened, or [json.load]
    raises a [JSONDecodeError] (or an [OSError]); any other exception of
    [json.load], a [UnicodeDecodeError] say, is raised to the caller.
    Unless it returns [True], the credential held before is still held. *)
Theorem load_token_outcome E s :
  let path := token_file_path (config E) in
  let x := load_token E s in
  fs (load_state x) = fs s
  ∧ (load_result x = Ret true ↔
       ∃ c v, fs s !! path = Some c ∧ io_fails E Open (io_pos s) = false
              ∧ json_load E c = Parsed v)
  ∧ (∀ c v, fs s !! path = Some c → io_fails E Open (io_pos s) = false →
            json_load E c = Parsed v → load_held x = v)
  ∧ (load_result x = Ret false ↔
       fs s !! path = None ∨ io_fails E Open (io_pos s) = true
       ∨ ∃ c, fs s !! path = Some c
              ∧ (json_load E c = ParseRaises JSONDecodeError
                 ∨ json_load E c = ParseRaises OSError))
  ∧ (∀ e, load_result x = Raise e ↔
       e ≠ JSONDecodeError ∧ e ≠ OSError
       ∧ ∃ c, fs s !! path = Some c ∧ io_fails E Open (io_pos s) = false
              ∧ json_load E c = ParseRaises e)
  ∧ (load_result x ≠ Ret true → load_held x = as_json (_token_data s)).
Proof.
  intros path x. subst x path. rewrite load_token_eval.
  destruct (fs s !! token_file_path (config E)) as [c|] eqn:Hc.
  2: { cbn. split_and!; try done.
       - split; [done|]. by intros (?&?&?&_).
       - split; auto.
       - intros e. split; [done|]. by intros (_&_&?&?&_). }
  cbv zeta. destruct (io_fails E Open (io_pos s)) eqn:Hopen.
  { cbn. split_and!; try done.
    - split; [done|]. by intros (?&?&_&?&_).
    - split; auto.
    - intros e. split; [done|]. by intros (_&_&?&_&?&_). }
  destruct (json_load E c) as [v|e] eqn:Hload.
  - assert (Hres : load_result
                     match v with
                     | JObj d =>
                         Ended (Ret true)
                           (set_token_data (Some d) (set_io_pos (S (io_pos s)) s))
                     | JNull =>
                         Ended (Ret true)
                           (set_token_data None (set_io_pos (S (io_pos s)) s))
                     | _ => Held v (set_io_pos (S (io_pos s)) s)
                     end = Ret true) by (by destruct v).
    split_and!.
    + by destruct v.
    + rewrite Hres. split; [|done]. intros _. by exists c, v.
    + intros c' v' [= <-] _ Hv. rewrite Hload in Hv. injection Hv as <-.
      by destruct v.
    + rewrite Hres. split; [done|].
      intros [?|[?|(c'&[= <-]&[?|?])]]; congruence.
    + intros e. rewrite Hres. split; [done|].
      intros (_&_&c'&[= <-]&_&?). congruence.
    + by rewrite Hres.
  - assert (Hcaught : (e = JSONDecodeError ∨ e = OSError)
                      ∨ (e ≠ JSONDecodeError ∧ e ≠ OSError))
      by (destruct e; auto).
    destruct Hcaught as [Hcaught|[Hj Ho]].
    + assert (Hres : match e with
                     | JSONDecodeError | OSError =>
                         Ended (Ret false) (set_io_pos (S (io_pos s)) s)
                     | _ => Ended (Raise e) (set_io_pos (S (io_pos s)) s)
                     end = Ended (Ret false) (set_io_pos (S (io_pos s)) s))
        by (by destruct Hcaught as [->| ->]).
      rewrite Hres. cbn. split_and!; try done.
      * split; [done|]. intros (c'&v&[= <-]&_&?). congruence.
      * intros c' v [= <-] _ ?. congruence.
      * split; [|done]. intros _. right. right. exists c. split; [done|].
        destruct Hcaught as [->| ->]; auto.
      * intros e'. split; [done|].
        intros (Hj&Ho&c'&[= <-]&_&?).
        assert (e' = e) as -> by congruence.
        by destruct Hcaught.
    + assert (Hres : match e with
                     | JSONDecodeError | OSError =>
                         Ended (Ret false) (set_io_pos (S (io_pos s)) s)
                     | _ => Ended (Raise e) (set_io_pos (S (io_pos s)) s)
                     end = Ended (Raise e) (set_io_pos (S (io_pos s)) s))
        by (by destruct e).
      rewrite Hres. cbn. split_and!; try done.
      * split; [done|]. intros (c'&v&[= <-]&_&?). congruence.
      * intros c' v [= <-] _ ?. congruence.
      * split; [done|].
        intros [?|[?|(c'&[= <-]&[?|?])]]; congruence.
      * intros e'. split.
        -- intros [= <-]. split_and!; try done. by exists c.
        -- intros (_&_&c'&[= <-]&_&?). congruence.
Qed.

(** X22. [load_token] after a [save_token] that returned, on the files the
    save left (in the same process or, the state [s2] being arbitrary
    otherwise, in another one), hands to [json.load] exactly the text that
    [json.dump] wrote for the record.  It returns [True] and holds [v]
    when [json.load] makes the value [v] of that text, and it keeps what it
    held when [json.load] raises.  Whether [v] is the record saved is for
    the [json] module to say. *)
Theorem load_token_after_save E td s s1 s2 :
  save_token E td s = (Ret tt, s1) →
  fs s2 = fs s1 →
  io_fails E Open (io_pos s2) = false →
  (∀ v, json_load E (json_dump E td) = Parsed v →
        load_result (load_token E s2) = Ret true
        ∧ load_held (load_token E s2) = v)
  ∧ (∀ e, json_load E (json_dump E td) = ParseRaises e →
          load_result (load_token E s2) ≠ Ret true
          ∧ load_held (load_token E s2) = as_json (_token_data s2)).
Proof.
  intros Hsave Hfs Hopen.
  destruct (save_token_return E td s s1 Hsave) as [Hfile _].
  rewrite load_token_eval, Hfs, Hfile. cbv zeta. rewrite Hopen.
  split.
  - intros v ->. by destruct v.
  - intros e ->. by destruct e.
Qed.

(** ** [save_token], when it returns *)

Lemma state_eq s1 s2 :
  clock s1 = clock s2 → fs s1 = fs s2 → token_pos s1 = token_pos s2 →
  api_pos s1 = api_pos s2 → io_pos s1 = io_pos s2 →
  _token_data s1 = _token_data s2 → trace s1 = trace s2 → s1 = s2.
Proof. destruct s1, s2. cbn. by intros -> -> -> -> -> -> ->. Qed.

Lemma save_token_return_state E td s s' :
  save_token E td s = (Ret tt, s') → s' = saved E td s.
Proof.
  run_save; intros [= <-]. apply state_eq; cbn; try done; [|lia].
  rewrite insert_insert_eq, delete_insert_eq. f_equal. by apply delete_id.
Qed.

Lemma save_token_ok E td s :
  save_step_fails E (io_pos s) = false →
  fs s !! tmp_name E (S (io_pos s)) = None →
  save_token E td s = (Ret tt, saved E td s).
Proof.
  intros Hsteps Hfresh.
  destruct (save_token E td s) as [[[]|e] s'] eqn:Hrun.
  { by rewrite (save_token_return_state _ _ _ _ Hrun). }
  exfalso. revert Hrun Hsteps. unfold save_step_fails.
  replace (io_pos s + 1)%nat with (S (io_pos s)) by lia.
  replace (io_pos s + 2)%nat with (S (S (io_pos s))) by lia.
  replace (io_pos s + 3)%nat with (S (S (S (io_pos s)))) by lia.
  replace (io_pos s + 4)%nat with (S (S (S (S (io_pos s))))) by lia.
  run_save; intros Hrun Hsteps; cbn in Hsteps; congruence.
Qed.

Lemma save_token_return_conditions E td s s' :
  save_token E td s = (Ret tt, s') →
  save_step_fails E (io_pos s) = false
  ∧ fs s !! tmp_name E (S (io_pos s)) = None.
Proof.
  unfold save_step_fails.
  replace (io_pos s + 1)%nat with (S (io_pos s)) by lia.
  replace (io_pos s + 2)%nat with (S (S (io_pos s))) by lia.
  replace (io_pos s + 3)%nat with (S (S (S (io_pos s)))) by lia.
  replace (io_pos s + 4)%nat with (S (S (S (S (io_pos s))))) by lia.
  run_save; intros Hrun; try discriminate Hrun; done.
Qed.

(** X2. [save_token] returns exactly when none of its five system calls
    fails and the name [mkstemp] picks is free.  It has then made five
    system calls, holds the record, and left the files as they were except
    for the credential file, which holds the dump of the record: no
    temporary file remains, and neither the clock nor the network was
    touched. *)
Theorem save_token_returns E td s :
  ((∃ s', save_token E td s = (Ret tt, s')) ↔
   save_step_fails E (io_pos s) = false
   ∧ fs s !! tmp_name E (S (io_pos s)) = None)
  ∧ ∀ s', save_token E td s = (Ret tt, s') →
      fs s' = <[token_file_path (config E) := json_dump E td]> (fs s)
      ∧ _token_data s' = Some td
      ∧ io_pos s' = (io_pos s + 5)%nat
      ∧ clock s' = clock s ∧ token_pos s' = token_pos s ∧ api_pos s' = api_pos s
      ∧ trace s' = (trace s ++ [EvSave td])%list.
Proof.
  split.
  - split.
    + intros [s' Hrun]. by apply (save_token_return_conditions E td s s').
    + intros [Hsteps Hfresh]. eexists. by apply save_token_ok.
  - intros s' ->%save_token_return_state. done.
Qed.

(** ** [refresh_access_token], attempt by attempt *)

Lemma slept_for_log ev s :
  slept_for (log_event ev s)
  = slept_for s + match ev with EvSleep d => d | _ => 0 end.
Proof.
  unfold slept_for. cbn. generalize (trace s). intros l.
  induction l as [|x l IH]; cbn.
  - destruct ev; lia.
  - destruct x; lia.
Qed.

Lemma same_session_save E td s : same_session s (save_token E td s).2.
Proof.
  revert s. change (track same_session (save_token E td)).
  eapply track_save with (allowed := λ ev, match ev with EvSleep _ => False | _ => True end);
    unfold same_session; try done.
  - intros s1 s2 s3 (?&?&?&?) (?&?&?&?). split_and!; congruence.
  - intros ev s Hev. split_and!; try done.
    rewrite slept_for_log. destruct ev; try done; lia.
Qed.

Lemma refresh_attempt_granted E rt s data access refresh x :
  grants (token_net E (token_pos s)) data access refresh x →
  refresh_attempt E rt s =
    match save_token E
            (token_record data access refresh x (clock (posted E rt s)))
            (posted E rt s) with
    | (Ret _, s') => (Ret true, s')
    | (Raise e, s') => (Raise e, s')
    end.
Proof.
  intros (r & Hr & Hst & Hbody & Ha & Hr' & Hx).
  unfold refresh_attempt, try_except, bind at 1, requests_post.
  rewrite Hr. fold (posted E rt s). rewrite Hst. change (200 =? 200) with true.
  cbv iota. unfold bind at 1, resp_json. rewrite Hbody.
  unfold ret at 1. cbv beta iota. rewrite Ha, Hr'.
  unfold bind at 1, time_time at 1. cbv beta iota. rewrite Hx.
  unfold bind at 1, time_time at 1. cbv beta iota.
  unfold bind at 1, token_record.
  destruct (save_token E _ (posted E rt s)) as [[[]|e] s'] eqn:Hsave; [done|].
  destruct (save_token_raise_exn _ _ _ _ _ Hsave) as [-> | ->]; done.
Qed.

(** How one attempt of a refresh can end. *)
Lemma refresh_attempt_cases E rt s :
  match refresh_attempt E rt s with
  | (Ret true, s') =>
      ∃ data access refresh x,
        grants (token_net E (token_pos s)) data access refresh x
        ∧ save_token E
            (token_record data access refresh x (clock (posted E rt s)))
            (posted E rt s) = (Ret tt, s')
  | (Ret false, s') =>
      s' = posted E rt s ∧ failed_answer (token_net E (token_pos s)) = true
  | (Raise e, s') =>
      s' = posted E rt s ∨ ∃ td, save_token E td (posted E rt s) = (Raise e, s')
  end.
Proof.
  destruct (result (token_net E (token_pos s))) as [r|] eqn:Hr.
  2: { rewrite refresh_attempt_failed by (unfold failed_answer; by rewrite Hr).
       split; [done|]. unfold failed_answer. by rewrite Hr. }
  destruct (status_code r =? 200) eqn:Hst.
  2: { rewrite refresh_attempt_failed
         by (unfold failed_answer; by rewrite Hr, Hst).
       split; [done|]. unfold failed_answer. by rewrite Hr, Hst. }
  destruct (body r) as [v|] eqn:Hbody.
  2: { rewrite refresh_attempt_failed
         by (unfold failed_answer; rewrite Hr, Hst, Hbody; done).
       split; [done|]. unfold failed_answer. by rewrite Hr, Hst, Hbody. }
  apply Z.eqb_eq in Hst.
  assert (Hnot : ∀ e, refresh_attempt E rt s = (Raise e, posted E rt s) →
                 match refresh_attempt E rt s with
                 | (Ret true, s') =>
                     ∃ data access refresh x,
                       grants (token_net E (token_pos s)) data access refresh x
                       ∧ save_token E
                           (token_record data access refresh x
                              (clock (posted E rt s)))
                           (posted E rt s) = (Ret tt, s')
                 | (Ret false, s') =>
                     s' = posted E rt s
                     ∧ failed_answer (token_net E (token_pos s)) = true
                 | (Raise e, s') =>
                     s' = posted E rt s
                     ∨ ∃ td, save_token E td (posted E rt s) = (Raise e, s')
                 end).
  { intros e ->. by left. }
  destruct v as [| | | | |data].
  1-5: eapply Hnot; unfold refresh_attempt, try_except, bind, requests_post,
         resp_json; rewrite Hr, Hst, Hbody; reflexivity.
  destruct (data !! "access_token") as [access|] eqn:Ha.
  2: { eapply Hnot; unfold refresh_attempt, try_except, bind, requests_post,
         resp_json. rewrite Hr, Hst, Hbody. cbn. rewrite Ha. reflexivity. }
  destruct (data !! "refresh_token") as [refresh|] eqn:Hr'.
  2: { eapply Hnot; unfold refresh_attempt, try_except, bind, requests_post,
         resp_json. rewrite Hr, Hst, Hbody. cbn. rewrite Ha, Hr'. reflexivity. }
  destruct (as_number (dict_get data "expires_in" (JNum 3600))) as [x|] eqn:Hx.
  2: { eapply Hnot; unfold refresh_attempt, try_except, bind, requests_post,
         resp_json, time_time. rewrite Hr, Hst, Hbody. cbn. rewrite Ha, Hr', Hx.
       reflexivity. }
  assert (Hg : grants (token_net E (token_pos s)) data access refresh x).
  { exists r. by split_and!. }
  rewrite (refresh_attempt_granted E rt s data access refresh x Hg).
  destruct (save_token E _ (posted E rt s)) as [[[]|e] s'] eqn:Hsave.
  - by exists data, access, refresh, x.
  - right. eauto.
Qed.

Lemma refresh_attempt_session E rt s :
  token_pos (refresh_attempt E rt s).2 = S (token_pos s)
  ∧ api_pos (refresh_attempt E rt s).2 = api_pos s
  ∧ slept_for (refresh_attempt E rt s).2 = slept_for s.
Proof.
  assert (Hposted : token_pos (posted E rt s) = S (token_pos s)
                    ∧ api_pos (posted E rt s) = api_pos s
                    ∧ slept_for (posted E rt s) = slept_for s).
  { unfold posted. rewrite slept_for_log. cbn. split_and!; try done.
    unfold slept_for. cbn. lia. }
  assert (Hsave : ∀ td r s', save_token E td (posted E rt s) = (r, s') →
            token_pos s' = S (token_pos s) ∧ api_pos s' = api_pos s
            ∧ slept_for s' = slept_for s).
  { intros td r s' Hrun. pose proof (same_session_save E td (posted E rt s)) as H.
    rewrite Hrun in H. destruct H as (_ & ? & ? & ?). cbn [snd] in *.
    destruct Hposted as (?&?&?). split_and!; congruence. }
  pose proof (refresh_attempt_cases E rt s) as H.
  destruct (refresh_attempt E rt s) as [[[|]|e] s']; cbn [snd].
  - destruct H as (?&?&?&?&_&H). by eapply Hsave.
  - by destruct H as [-> _].
  - destruct H as [-> | [td H]]; [done | by eapply Hsave].
Qed.

Lemma slept_session d s :
  token_pos (slept d s) = token_pos s ∧ api_pos (slept d s) = api_pos s
  ∧ slept_for (slept d s) = slept_for s + d.
Proof.
  unfold slept. rewrite slept_for_log. cbn. split_and!; try done.
Qed.

Lemma refresh_loop_bounded E rt s0 r s' :
  refresh_loop E rt 5 (range 5) 1 s0 = (r, s') →
  (token_pos s' ≤ token_pos s0 + 5)%nat
  ∧ slept_for s' ≤ slept_for s0 + 15
  ∧ api_pos s' = api_pos s0.
Proof.
  cbn [refresh_loop range seq].
  repeat
    (match goal with
     | |- context [bind (refresh_attempt E rt) ?k ?s1] =>
         let H := fresh "H" in
         pose proof (refresh_attempt_session E rt s1) as H;
         unfold bind at 1;
         destruct (refresh_attempt E rt s1) as [[[|]|?] ?];
         cbn [snd] in H; destruct H as (?&?&?);
         [intros [= <- <-]; lia | | intros [= <- <-]; lia]
     end;
     match goal with
     | |- context [Z.of_nat ?a <? 5 - 1] =>
         let b := eval vm_compute in (Z.of_nat a <? 5 - 1) in
         change (Z.of_nat a <? 5 - 1) with b
     end;
     cbv iota;
     try (match goal with
          | |- context [bind (time_sleep ?d) ?k ?s1] =>
              let H := fresh "H" in
              rewrite (bind_ret _ k s1 _ _ (time_sleep_eval d s1 ltac:(cbn; lia)));
              pose proof (slept_session d s1) as H; cbn [Z.min Z.mul Z.compare Pos.mul Pos.compare Pos.compare_cont] in H;
              destruct H as (?&?&?);
              generalize dependent (slept d s1); intros ? ? ? ?
          end)).
  intros [= <- <-]. unfold slept_for in *.
  cbn [set_token_data token_pos api_pos trace]. lia.
Qed.

(** X5. Whatever the token endpoint answers and however the call ends, one
    call of [refresh_access_token] consumes at most five answers of the
    token endpoint, sleeps at most 1 + 2 + 4 + 8 = 15 seconds in all, and
    sends nothing to the fleet API. *)
Theorem refresh_access_token_bounded E s :
  (token_pos (refresh_access_token E s).2 ≤ token_pos s + 5)%nat
  ∧ slept_for (refresh_access_token E s).2 ≤ slept_for s + 15
  ∧ api_pos (refresh_access_token E s).2 = api_pos s.
Proof.
  rewrite refresh_access_token_eval.
  assert (Hlog : token_pos (log_event EvRefresh s) = token_pos s
                 ∧ api_pos (log_event EvRefresh s) = api_pos s
                 ∧ slept_for (log_event EvRefresh s) = slept_for s).
  { rewrite slept_for_log. cbn. split_and!; done || lia. }
  destruct Hlog as (Ht & Ha & Hs).
  destruct (_token_data s) as [td|]; [|cbn [snd]; lia].
  destruct (td !! "refresh_token") as [rt|]; [|cbn [snd]; lia].
  destruct (refresh_loop E rt 5 (range 5) 1 (log_event EvRefresh s))
    as [r s'] eqn:Hrun.
  apply refresh_loop_bounded in Hrun. cbn [snd]. lia.
Qed.

(** Failed attempts, then a grant: the loop gets to [save_token] with that
    grant, in a state that differs from the first by the posts and sleeps
    only, and ends as the save ends. *)
Lemma refresh_loop_reaches_grant E rt n l data access refresh x : ∀ b s j,
  0 ≤ b →
  (token_pos s ≤ j < token_pos s + length l)%nat →
  (∀ k, (token_pos s ≤ k < j)%nat → failed_answer (token_net E k) = true) →
  grants (token_net E j) data access refresh x →
  ∃ s0, token_pos s0 = j ∧ fs s0 = fs s ∧ io_pos s0 = io_pos s
        ∧ _token_data s0 = _token_data s
        ∧ refresh_loop E rt n l b s =
            match save_token E
                    (token_record data access refresh x (clock (posted E rt s0)))
                    (posted E rt s0) with
            | (Ret _, s') => (Ret tt, s')
            | (Raise e, s') => (Raise e, s')
            end.
Proof.
  induction l as [|a l IH]; intros b s j Hb Hj Hfail Hgrant; cbn [length] in Hj;
    [lia|].
  cbn [refresh_loop].
  destruct (decide (j = token_pos s)) as [->|Hne].
  - exists s. split_and!; try done. unfold bind.
    rewrite (refresh_attempt_granted E rt s data access refresh x Hgrant).
    by destruct (save_token E _ (posted E rt s)) as [[[]|e] s'].
  - rewrite (bind_ret _ _ _ _ _ (refresh_attempt_failed E rt s
               (Hfail (token_pos s) ltac:(lia)))).
    destruct (_ <? _).
    + rewrite (bind_ret _ _ _ _ _ (time_sleep_eval (Z.min b 60) _ ltac:(lia))).
      destruct (IH (b * 2) (slept (Z.min b 60) (posted E rt s)) j)
        as (s0 & ? & ? & ? & ? & Hrun);
        [lia | cbn; lia | intros k Hk; apply Hfail; cbn in Hk; lia | done |].
      exists s0. by split_and!.
    + destruct (IH b (posted E rt s) j) as (s0 & ? & ? & ? & ? & Hrun);
        [lia | cbn; lia | intros k Hk; apply Hfail; cbn in Hk; lia | done |].
      exists s0. by split_and!.
Qed.


(** A refresh that raises leaves the credential held and every file. *)
Lemma refresh_loop_raises E rt n l : ∀ b s e s',
  refresh_loop E rt n l b s = (Raise e, s') →
  _token_data s' = _token_data s
  ∧ ∀ p c, fs s !! p = Some c → fs s' !! p = Some c.
Proof.
  induction l as [|a l IH]; intros b s e s'; cbn [refresh_loop]; [done|].
  unfold bind at 1. pose proof (refresh_attempt_cases E rt s) as Hcases.
  destruct (refresh_attempt E rt s) as [[[|]|e1] s1].
  - done.
  - destruct Hcases as [-> _].
    destruct (_ <? _); [|intros Hrun; apply IH in Hrun; exact Hrun].
    unfold bind, time_sleep. destruct (_ <? 0).
    + by intros [= <- <-].
    + intros Hrun. apply IH in Hrun. exact Hrun.
  - intros [= <- <-]. destruct Hcases as [-> | [td Hsave]]; [done|].
    split.
    + by rewrite (save_token_raise_token_data _ _ _ _ _ Hsave).
    + intros p c Hp. by apply (save_token_raise_files _ _ _ _ _ p c Hsave).
Qed.

(** X4. A refresh that raises (a 200 without the fields, a lifetime that is
    not a number, a replacement that could not be saved) never raises a
    [RequestException], keeps the credential that was held and leaves every
    file that existed, the persisted record among them, as it was.  And a
    grant that cannot be saved does make it raise, on the spot: the loop
    does not go on to another attempt. *)
Theorem refresh_access_token_raises E s :
  (∀ e s', refresh_access_token E s = (Raise e, s') →
     e ≠ RequestException
     ∧ _token_data s' = _token_data s
     ∧ ∀ p c, fs s !! p = Some c → fs s' !! p = Some c)
  ∧ (∀ td rt j data access refresh x,
       _token_data s = Some td → td !! "refresh_token" = Some rt →
       (token_pos s ≤ j < token_pos s + 5)%nat →
       (∀ k, (token_pos s ≤ k < j)%nat → failed_answer (token_net E k) = true) →
       grants (token_net E j) data access refresh x →
       save_step_fails E (io_pos s) = true →
       ∃ e s', refresh_access_token E s = (Raise e, s') ∧ token_pos s' = S j).
Proof.
  split.
  - intros e s' Hrun. split; [exact (throws_refresh_access_token E _ _ _ Hrun)|].
    revert Hrun. rewrite refresh_access_token_eval.
    destruct (_token_data s) as [td|] eqn:Htd; [|done].
    destruct (td !! "refresh_token") as [rt|]; [|done].
    intros Hrun. apply refresh_loop_raises in Hrun.
    cbn [_token_data fs log_event] in Hrun. rewrite Htd in Hrun. exact Hrun.
  - intros td rt j data access refresh x Htd Hrt Hj Hfail Hgrant Hsteps.
    rewrite refresh_access_token_eval, Htd, Hrt.
    destruct (refresh_loop_reaches_grant E rt 5 (range 5) data access refresh x
                1 (log_event EvRefresh s) j)
      as (s0 & Hpos & Hfs & Hio & _ & Hrun); [lia | cbn; lia | done | done |].
    rewrite Hrun.
    destruct (save_token_step_fails E
                (token_record data access refresh x (clock (posted E rt s0)))
                (posted E rt s0)) as (e & s' & Hsave).
    { cbn. by rewrite Hio. }
    rewrite Hsave. exists e, s'. split; [done|].
    pose proof (same_session_save E
                  (token_record data access refresh x (clock (posted E rt s0)))
                  (posted E rt s0)) as (_ & Ht & _).
    rewrite Hsave in Ht. cbn in Ht. by rewrite Ht, Hpos.
Qed.

(** ** [exchange_code] *)

Lemma exchange_code_cases E code s :
  match exchange_code E code s with
  | (Ret td, s') =>
      (∃ r data access refresh x,
         accepts (token_net E (token_pos s)) r data access refresh x
         ∧ td = token_record data access refresh x (clock (posted E (JStr code) s)))
      ∧ save_token E td (posted E (JStr code) s) = (Ret tt, s')
  | (Raise e, s') =>
      s' = posted E (JStr code) s
      ∨ ∃ td, save_token E td (posted E (JStr code) s) = (Raise e, s')
  end.
Proof.
  unfold exchange_code, bind at 1, requests_post. fold (posted E (JStr code) s).
  destruct (result (token_net E (token_pos s))) as [r|] eqn:Hr; [|by left].
  unfold bind at 1, raise_for_status.
  destruct (_ && _) eqn:Hst; [by left|]. unfold ret at 1. cbv beta iota.
  unfold bind at 1, resp_json.
  destruct (body r) as [v|] eqn:Hbody; [|by left]. unfold ret at 1.
  cbv beta iota.
  destruct v as [| | | | |data]; try by left.
  destruct (data !! "access_token") as [access|] eqn:Ha; [|by left].
  destruct (data !! "refresh_token") as [refresh|] eqn:Hrt; [|by left].
  unfold bind at 1, time_time at 1. cbv beta iota.
  destruct (as_number _) as [x|] eqn:Hx; [|by left].
  unfold bind at 1, time_time at 1. cbv beta iota.
  unfold bind at 1.
  destruct (save_token E _ (posted E (JStr code) s)) as [[[]|e] s'] eqn:Hsave.
  - split; [|exact Hsave]. exists r, data, access, refresh, x.
    split; [|done]. unfold accepts. split_and!; try done.
    apply andb_false_iff in Hst as [H|H]; [left|right].
    + by apply Z.leb_gt in H.
    + by apply Z.ltb_ge in H.
  - right. eauto.
Qed.


(** X7. [exchange_code] does not retry and catches nothing.  No answer, or
    a 4xx or 5xx, makes it raise a [RequestException] after its single post,
    without a system call on files; and however it raises, the credential
    that was held and every file that existed are as they were. *)
Theorem exchange_code_raises E code s :
  (match result (token_net E (token_pos s)) with
   | NoAnswer => True
   | Answered r => 400 ≤ status_code r < 600
   end →
   exchange_code E code s = (Raise RequestException, posted E (JStr code) s))
  ∧ ∀ e s', exchange_code E code s = (Raise e, s') →
      _token_data s' = _token_data s
      ∧ token_pos s' = S (token_pos s)
      ∧ ∀ p c, fs s !! p = Some c → fs s' !! p = Some c.
Proof.
  split.
  - unfold exchange_code, bind at 1, requests_post.
    fold (posted E (JStr code) s).
    destruct (result (token_net E (token_pos s))) as [r|]; [|done].
    intros Hst. unfold bind at 1, raise_for_status.
    replace (400 <=? status_code r) with true by (symmetry; apply Z.leb_le; lia).
    replace (status_code r <? 600) with true by (symmetry; apply Z.ltb_lt; lia).
    done.
  - intros e s' Hrun. pose proof (exchange_code_cases E code s) as H.
    rewrite Hrun in H. destruct H as [-> | [td Hsave]]; [done|].
    pose proof (same_session_save E td (posted E (JStr code) s)) as (_ & Ht & _).
    rewrite Hsave in Ht. split_and!.
    + by rewrite (save_token_raise_token_data _ _ _ _ _ Hsave).
    + done.
    + intros p c Hp. by apply (save_token_raise_files _ _ _ _ _ p c Hsave).
Qed.

(** ** [is_token_valid] at the edges *)

(** X8. How [expires_at] is read.  A credential without the field is due at
    any time from the epoch on (the field counts as 0), so every read of
    [access_token] refreshes.  A field that is not a number makes
    [is_token_valid], [access_token] and every request raise [TypeError]
    before anything is sent.  A record granted for 300 seconds or less is
    due from the moment it was built. *)
Theorem expires_at_edges E s td :
  _token_data s = Some td →
  (td !! "expires_at" = None → 0 ≤ clock s →
     is_token_valid s = (Ret false, s)
     ∧ count is_refresh (access_token E s).2 = (count is_refresh s + 1)%nat)
  ∧ (∀ v, td !! "expires_at" = Some v → as_number v = None →
       is_token_valid s = (Raise TypeError, s)
       ∧ access_token E s = (Raise TypeError, s)
       ∧ ∀ m p, _request E m p s = (Raise TypeError, s))
  ∧ (∀ data access refresh x now,
       td = token_record data access refresh x now → x ≤ 300 → now ≤ clock s →
       is_token_valid s = (Ret false, s)).
Proof.
  intros Htd. split_and!.
  - intros Hnone Hclock.
    assert (Hexp : expires_at td = Some 0).
    { unfold expires_at, dict_get. by rewrite Hnone. }
    rewrite (is_token_valid_eval s td 0 Htd Hexp).
    replace (clock s <? 0 - 300) with false by (symmetry; apply Z.ltb_ge; lia).
    split; [done|].
    rewrite (access_token_due E s td 0 Htd Hexp) by lia.
    pose proof (refresh_access_token_counted E s) as Hc.
    by destruct (refresh_access_token E s) as [[[]|e] s'].
  - intros v Hv Hnum.
    assert (Hvalid : is_token_valid s = (Raise TypeError, s)).
    { unfold is_token_valid, bind, get, time_time, dict_get.
      rewrite Htd. cbn. rewrite Hv. cbn. by rewrite Hnum. }
    assert (Hread : access_token E s = (Raise TypeError, s)).
    { unfold access_token, bind at 1, get at 1. rewrite Htd.
      by rewrite (bind_raise _ _ _ _ _ Hvalid). }
    split_and!; try done. intros m p. unfold _request. cbn [range seq request_loop].
    by rewrite (bind_raise _ _ _ _ _ Hread).
  - intros data access refresh x now -> Hx Hnow.
    assert (Hexp : expires_at (token_record data access refresh x now)
                   = Some (now + x)).
    { unfold expires_at, dict_get, token_record.
      rewrite lookup_insert_ne by done. rewrite lookup_insert_ne by done.
      by rewrite lookup_insert_eq. }
    rewrite (is_token_valid_eval s _ _ Htd Hexp).
    by replace (clock s <? now + x - 300) with false
      by (symmetry; apply Z.ltb_ge; lia).
Qed.

(** ** [_request]: what it sends and what it lets out *)

Lemma access_token_api_pos E s : api_pos (access_token E s).2 = api_pos s.
Proof.
  revert s. change (track (λ s s', api_pos s' = api_pos s) (access_token E)).
  eapply track_access_token with (allowed := λ _, True); try done.
  intros s1 s2 s3. congruence.
Qed.

Lemma access_token_requests E s :
  count is_request (access_token E s).2 = count is_request s.
Proof.
  revert s. change (silent is_request (access_token E)).
  unfold silent.
  eapply track_access_token with (allowed := λ ev, is_request ev = false);
    count_frame.
Qed.

Lemma request_attempt_api_pos E m p n a b tok s :
  api_pos (request_attempt E m p n a b tok s).2 = S (api_pos s).
Proof.
  change (S (api_pos s)) with (api_pos (sent E m p tok s)).
  eapply track_after_sent
    with (R := λ s s', api_pos s' = api_pos s) (allowed := λ _, True);
    try done.
  intros s1 s2 s3. congruence.
Qed.

Lemma request_attempt_requests E m p n a b tok s :
  count is_request (request_attempt E m p n a b tok s).2
  = S (count is_request s).
Proof.
  replace (S (count is_request s)) with (count is_request (sent E m p tok s)).
  2: { unfold sent. rewrite count_log. cbn. unfold count. cbn. lia. }
  eapply track_after_sent
    with (R := λ s s', count is_request s' = count is_request s)
         (allowed := λ ev, is_request ev = false); count_frame.
Qed.

Lemma request_loop_bounded E m p n l : ∀ b s,
  ∃ k, (k ≤ length l)%nat
       ∧ api_pos (request_loop E m p n l b s).2 = (api_pos s + k)%nat
       ∧ count is_request (request_loop E m p n l b s).2
         = (count is_request s + k)%nat.
Proof.
  induction l as [|a l IH]; intros b s.
  { exists 0%nat. cbn. split_and!; lia. }
  pose proof (access_token_api_pos E s) as Ha.
  pose proof (access_token_requests E s) as Hc.
  destruct (access_token E s) as [[tok|e] s1] eqn:Htok; cbn [snd] in Ha, Hc.
  2: { exists 0%nat. cbn [request_loop].
       rewrite (bind_raise _ _ _ _ _ Htok). cbn. split_and!; lia. }
  assert (Hcase : tok = JNull ∨ tok ≠ JNull) by (destruct tok; auto).
  destruct Hcase as [->|Hne].
  { exists 0%nat. rewrite (request_loop_no_token _ _ _ _ _ _ _ _ _ Htok).
    cbn. split_and!; lia. }
  rewrite (request_loop_token _ _ _ _ _ _ _ _ _ _ Htok Hne).
  pose proof (request_attempt_api_pos E m p n a b tok s1) as Hra.
  pose proof (request_attempt_requests E m p n a b tok s1) as Hrc.
  destruct (request_attempt E m p n a b tok s1) as [[[v|b']|e] s2];
    cbn [snd] in Hra, Hrc.
  - exists 1%nat. cbn. split_and!; lia.
  - destruct (IH b' s2) as (k & Hk & Hp & Hq).
    exists (S k). cbn [length]. split_and!; lia.
  - exists 1%nat. cbn. split_and!; lia.
Qed.

(** X9. However it ends, one call of [_request] sends at most three
    requests, one for each answer of the fleet API it consumes. *)
Theorem request_sends_at_most_three E m p s :
  ∃ k, (k ≤ 3)%nat
       ∧ api_pos (_request E m p s).2 = (api_pos s + k)%nat
       ∧ count is_request (_request E m p s).2 = (count is_request s + k)%nat.
Proof. apply (request_loop_bounded E m p 3 (range 3) 1 s). Qed.

Lemma throws_is_token_valid : throws (λ e, e ≠ RequestException) is_token_valid.
Proof.
  intros s e s'. unfold is_token_valid, bind, get, time_time.
  destruct (_token_data s); [|done]. cbn.
  destruct (as_number _); [done|]. by intros [= <- <-].
Qed.

Lemma throws_access_token E : throws (λ e, e ≠ RequestException) (access_token E).
Proof.
  unfold access_token.
  apply throws_bind; [apply throws_get | intros s].
  destruct (_token_data s); [|apply throws_ret].
  apply throws_bind; [apply throws_is_token_valid | intros valid].
  apply throws_bind.
  { destruct (negb valid); [apply throws_refresh_access_token | apply throws_ret]. }
  intros _. apply throws_bind; [apply throws_get | intros s'].
  destruct (_token_data s'); [|apply throws_ret].
  destruct (decide _); apply throws_ret.
Qed.

Lemma throws_request_attempt E m p n a b tok :
  throws (λ e, e ≠ RequestException) (request_attempt E m p n a b tok).
Proof.
  intros s e s'. unfold request_attempt, try_except.
  destruct (bind _ _ s) as [[c|x] s1]; [done|].
  assert (Hh : throws (λ e, e ≠ RequestException)
                 (if Z.of_nat a <? n - 1
                  then time_sleep (Z.min b 60) >> ret (Continue (b * 2))
                  else ret (Continue b))).
  { destruct (_ <? _); [|apply throws_ret].
    apply throws_bind; [apply throws_sleep | intros _; apply throws_ret]. }
  destruct x; try by intros [= <- <-].
  apply Hh.
Qed.

Lemma throws_request_loop E m p n l : ∀ b,
  throws (λ e, e ≠ RequestException) (request_loop E m p n l b).
Proof.
  induction l as [|a l IH]; intros b; cbn [request_loop]; [apply throws_ret|].
  apply throws_bind; [apply throws_access_token | intros tok].
  destruct tok; try apply throws_ret.
  all: apply throws_bind; [apply throws_request_attempt | intros [v|b']];
    [apply throws_ret | apply IH].
Qed.
(** ** [_request]: one answer at a time *)

Lemma request_attempt_terminal E m p n a b tok s r :
  result (api_net E (api_pos s)) = Answered r →
  terminal_status a (status_code r) = true →
  request_attempt E m p n a b tok s = (Ret (Return JNull), sent E m p tok s).
Proof.
  intros Hr Ht. unfold request_attempt, try_except.
  rewrite (bind_ret _ _ _ _ _ (session_request_answered E m p tok s r Hr)).
  unfold on_response. cbv zeta. unfold terminal_status in Ht.
  apply andb_prop in Ht as [Ht H500]. apply andb_prop in Ht as [Ht H429].
  apply andb_prop in Ht as [H200 H401].
  apply negb_true_iff in H200, H401, H429, H500.
  rewrite H200.
  replace ((status_code r =? 401) && (Z.of_nat a =? 0)) with false
    by (rewrite <- H401; f_equal; by destruct a).
  destruct (status_code r =? 408); [done|].
  rewrite H429, Z.geb_leb, H500. done.
Qed.



Lemma request_attempt_retryable E m p n a b tok s :
  retryable (api_net E (api_pos s)) = true → 0 ≤ b →
  request_attempt E m p n a b tok s =
    if Z.of_nat a <? n - 1
    then (Ret (Continue (b * 2)), slept (Z.min b 60) (sent E m p tok s))
    else (Ret (Continue b), sent E m p tok s).
Proof.
  intros Hx Hb. unfold retryable in Hx.
  destruct (result (api_net E (api_pos s))) as [r|] eqn:Hr.
  - apply orb_prop in Hx as [H5|H2].
    + apply (request_attempt_5xx E m p n a b tok s r Hr); [|done].
      by apply Z.leb_le.
    + apply andb_prop in H2 as [Hst Hbody]. apply Z.eqb_eq in Hst.
      unfold request_attempt, try_except.
      rewrite (bind_ret _ _ _ _ _ (session_request_answered E m p tok s r Hr)).
      unfold on_response. cbv zeta. rewrite Hst.
      change (200 =? 200) with true. cbv iota.
      unfold resp_json, bind. destruct (body r); [done|]. cbn.
      destruct (_ <? _); [|done].
      by rewrite (time_sleep_eval (Z.min b 60) _ ltac:(lia)).
  - unfold request_attempt, try_except, bind at 1, session_request.
    rewrite Hr. fold (sent E m p tok s).
    destruct (_ <? _); [|done].
    by rewrite (bind_ret _ _ _ _ _ (time_sleep_eval (Z.min b 60) _ ltac:(lia))).
Qed.

(** Attempts that all fail in a way that is retried, under a credential
    that stays valid. *)
Lemma request_loop_retryable E m p n td e L : ∀ k a b s,
  _token_data s = Some td → expires_at td = Some e → held_token s ≠ JNull →
  0 ≤ b →
  (∀ i, (i < k)%nat → retryable (api_net E (api_pos s + i)) = true) →
  (∀ i, (i < k)%nat → Z.of_nat (latency (api_net E (api_pos s + i))) ≤ L) →
  clock s + Z.of_nat k * (L + 60) < e - 300 →
  ∃ s', request_loop E m p n (seq a k) b s = (Ret JNull, s')
    ∧ trace s' = (trace s ++ backoff_trace m p (held_token s) n a b k)%list.
Proof.
  induction k as [|k IH]; intros a b s Htd Hexp Htok Hb Hans Hlat Hclock.
  { exists s. split; [done|]. unfold backoff_trace. cbn.
    by rewrite List.app_nil_r. }
  pose proof (Hans 0%nat ltac:(lia)) as Hx.
  pose proof (Hlat 0%nat ltac:(lia)) as Hl0.
  rewrite Nat.add_0_r in Hx, Hl0.
  assert (0 ≤ L) by lia.
  cbn [seq].
  rewrite (request_loop_token E m p n a (seq (S a) k) b s (held_token s) s);
    [|apply (access_token_valid E s td e); [done|done|nia] | done].
  rewrite (request_attempt_retryable E m p n a b _ s Hx Hb).
  rewrite backoff_trace_succ.
  destruct (Z.of_nat a <? n - 1).
  - destruct (IH (S a) (b * 2) (slept (Z.min b 60) (sent E m p (held_token s) s)))
      as (s' & Hrun & Htrace); [exact Htd | exact Hexp | exact Htok | lia | | | |].
    + intros i Hi. specialize (Hans (S i) ltac:(lia)).
      rewrite <- Hans. cbn. do 2 f_equal. lia.
    + intros i Hi. specialize (Hlat (S i) ltac:(lia)).
      rewrite Nat.add_succ_r in Hlat. exact Hlat.
    + cbn. nia.
    + exists s'. split; [done|]. rewrite Htrace. cbn.
      by rewrite <- !List.app_assoc.
  - destruct (IH (S a) b (sent E m p (held_token s) s))
      as (s' & Hrun & Htrace); [exact Htd | exact Hexp | exact Htok | lia | | | |].
    + intros i Hi. specialize (Hans (S i) ltac:(lia)).
      rewrite <- Hans. cbn. do 2 f_equal. lia.
    + intros i Hi. specialize (Hlat (S i) ltac:(lia)).
      rewrite Nat.add_succ_r in Hlat. exact Hlat.
    + cbn. nia.
    + exists s'. split; [done|]. rewrite Htrace. cbn.
      by rewrite <- !List.app_assoc.
Qed.

Lemma access_token_keeps_api_pos E s tok s1 :
  access_token E s = (Ret tok, s1) → api_pos s1 = api_pos s.
Proof. intros H. pose proof (access_token_api_pos E s) as Ha. by rewrite H in Ha. Qed.

(** X10. An answer with a status that is neither 200, nor 429, nor a 5xx,
    nor the 401 of a first attempt ends the call with [None] at once: one
    request, no sleep, no retry.  This is the fate of a 408 and of the
    other 4xx, and also of a 204 or a 302. *)
Theorem request_terminal_status E m p s tok s1 r :
  access_token E s = (Ret tok, s1) → tok ≠ JNull →
  result (api_net E (api_pos s)) = Answered r →
  (terminal_status 0 (status_code r) = true →
     _request E m p s = (Ret JNull, sent E m p tok s1))
  ∧ (∀ n a rest b, terminal_status a (status_code r) = true →
       request_loop E m p n (a :: rest) b s = (Ret JNull, sent E m p tok s1)).
Proof.
  intros Htok Hne Hr.
  rewrite <- (access_token_keeps_api_pos E s tok s1 Htok) in Hr.
  assert (Hloop : ∀ n a rest b, terminal_status a (status_code r) = true →
            request_loop E m p n (a :: rest) b s = (Ret JNull, sent E m p tok s1)).
  { intros n a rest b Ht.
    rewrite (request_loop_token _ _ _ _ _ _ _ _ _ _ Htok Hne).
    by rewrite (request_attempt_terminal E m p n a b tok s1 r Hr Ht). }
  split; [|exact Hloop]. intros Ht. by apply Hloop.
Qed.



(** X13. The failures that are retried with backoff are all treated alike:
    no answer at all (connection error, timeout), a 5xx, and a 200 whose
    body is not JSON.  With a credential that stays valid, a loop of
    [max_retries] attempts that all fail so returns [None] and leaves the
    trace [backoff_trace]; for [_request] itself that is three requests
    with sleeps of 1 and 2 seconds between them and none at the end. *)
Theorem request_retryable_backoff E m p td e L s :
  _token_data s = Some td → expires_at td = Some e → held_token s ≠ JNull →
  (∀ (max_retries : nat),
     (∀ i, (i < max_retries)%nat →
           retryable (api_net E (api_pos s + i)) = true) →
     (∀ i, (i < max_retries)%nat →
           Z.of_nat (latency (api_net E (api_pos s + i))) ≤ L) →
     clock s + Z.of_nat max_retries * (L + 60) < e - 300 →
     ∃ s', request_loop E m p (Z.of_nat max_retries) (range max_retries) 1 s
           = (Ret JNull, s')
       ∧ trace s' =
           (trace s ++
            backoff_trace m p (held_token s) (Z.of_nat max_retries) 0 1
              max_retries)%list)
  ∧ ((∀ i, (i < 3)%nat → retryable (api_net E (api_pos s + i)) = true) →
     (∀ i, (i < 3)%nat → Z.of_nat (latency (api_net E (api_pos s + i))) ≤ L) →
     clock s + 3 * (L + 60) < e - 300 →
     ∃ s', _request E m p s = (Ret JNull, s')
       ∧ trace s' =
           (trace s ++
            [EvRequest m p (held_token s); EvSleep 1;
             EvRequest m p (held_token s); EvSleep 2;
             EvRequest m p (held_token s)])%list).
Proof.
  intros Htd Hexp Hne. split.
  - intros n Hans Hlat Hclock.
    by apply (request_loop_retryable E m p (Z.of_nat n) td e L n 0%nat 1 s).
  - intros Hans Hlat Hclock.
    destruct (request_loop_retryable E m p 3 td e L 3 0%nat 1 s)
      as (s' & Hrun & Htrace); try done.
    exists s'. split; [exact Hrun|]. rewrite Htrace. done.
Qed.

(** X14. No [RequestException] leaves [_request]: connection errors,
    timeouts and bodies that are not JSON are all absorbed by the retries.
    What can come out is what a read of the credential or a refresh raises,
    and the [ValueError] of a bad [Retry-After]. *)
Theorem request_raises_no_request_exception E m p s e s' :
  _request E m p s = (Raise e, s') → e ≠ RequestException.
Proof. apply (throws_request_loop E m p 3 (range 3) 1 s e s'). Qed.
(** ** The public methods of [TeslaClient] *)

Lemma request_200 E m p s td e r v :
  _token_data s = Some td → expires_at td = Some e → clock s < e - 300 →
  held_token s ≠ JNull →
  result (api_net E (api_pos s)) = Answered r →
  status_code r = 200 → body r = Some v →
  _request E m p s = (Ret v, sent E m p (held_token s) s).
Proof.
  intros Htd Hexp Hclock Hne Hr Hst Hv. unfold _request. cbn [range seq].
  rewrite (request_loop_token E m p _ _ _ _ s (held_token s) s);
    [|by apply (access_token_valid E s td e) | done].
  by rewrite (request_attempt_200 E m p _ _ _ _ s r v).
Qed.

Lemma list_vehicles_200 E s td e r v :
  _token_data s = Some td → expires_at td = Some e → clock s < e - 300 →
  held_token s ≠ JNull →
  result (api_net E (api_pos s)) = Answered r →
  status_code r = 200 → body r = Some v →
  list_vehicles E s =
    (Ret (match v with
          | JNull => Ok (JArr [])
          | _ => py_get v "response" (JArr [])
          end),
     sent E "GET" "/api/1/vehicles" (held_token s) s).
Proof.
  intros Htd Hexp Hclock Hne Hr Hst Hv. unfold list_vehicles.
  rewrite (bind_ret _ _ _ _ _
             (request_200 E _ _ s td e r v Htd Hexp Hclock Hne Hr Hst Hv)).
  by destruct v.
Qed.

Lemma get_vehicle_data_200 E id s td e r v :
  _token_data s = Some td → expires_at td = Some e → clock s < e - 300 →
  held_token s ≠ JNull →
  result (api_net E (api_pos s)) = Answered r →
  status_code r = 200 → body r = Some v →
  get_vehicle_data E id s =
    (Ret (match v with
          | JNull => Ok JNull
          | _ => py_get v "response" JNull
          end),
     sent E "GET" (data_path id) (held_token s) s).
Proof.
  intros Htd Hexp Hclock Hne Hr Hst Hv. unfold get_vehicle_data.
  fold (data_path id).
  rewrite (bind_ret _ _ _ _ _
             (request_200 E _ _ s td e r v Htd Hexp Hclock Hne Hr Hst Hv)).
  by destruct v.
Qed.

(** X15. What [list_vehicles] and [get_vehicle_data] make of a 200 answer.
    A body [null] and an object without [response] give the default ([[]],
    [None]); an object with [response] gives the value of the field
    whatever it is, so [list_vehicles] returns [None], not [[]], for
    [{"response": null}]; any other body (a list, a string, a number) is an
    [AttributeError]. *)
Theorem vehicle_listing_shapes E s td e r v id :
  _token_data s = Some td → expires_at td = Some e → clock s < e - 300 →
  held_token s ≠ JNull →
  result (api_net E (api_pos s)) = Answered r →
  status_code r = 200 → body r = Some v →
  let s1 := sent E "GET" "/api/1/vehicles" (held_token s) s in
  let s2 := sent E "GET" (data_path id) (held_token s) s in
  (v = JNull →
     list_vehicles E s = (Ret (Ok (JArr [])), s1)
     ∧ get_vehicle_data E id s = (Ret (Ok JNull), s2))
  ∧ (∀ d, v = JObj d → d !! "response" = None →
       list_vehicles E s = (Ret (Ok (JArr [])), s1)
       ∧ get_vehicle_data E id s = (Ret (Ok JNull), s2))
  ∧ (∀ d x, v = JObj d → d !! "response" = Some x →
       list_vehicles E s = (Ret (Ok x), s1)
       ∧ get_vehicle_data E id s = (Ret (Ok x), s2))
  ∧ (v ≠ JNull → (∀ d, v ≠ JObj d) →
       list_vehicles E s = (Ret (Err AttributeError), s1)
       ∧ get_vehicle_data E id s = (Ret (Err AttributeError), s2)).
Proof.
  intros Htd Hexp Hclock Hne Hr Hst Hv s1 s2.
  rewrite (list_vehicles_200 E s td e r v Htd Hexp Hclock Hne Hr Hst Hv).
  rewrite (get_vehicle_data_200 E id s td e r v Htd Hexp Hclock Hne Hr Hst Hv).
  fold s1 s2. split_and!.
  - by intros ->.
  - intros d -> Hd. cbn. unfold dict_get. by rewrite Hd.
  - intros d x -> Hd. cbn. unfold dict_get. by rewrite Hd.
  - intros Hnull Hobj. destruct v; try done. by destruct (Hobj m).
Qed.

(** ** [wake_vehicle] *)

Lemma bind_ext {A B} (m : M A) (k k' : A → M B) s :
  (∀ a s', k a s' = k' a s') → bind m k s = bind m k' s.
Proof. intros H. unfold bind. by destruct (m s) as [[a|x] s']. Qed.

(** The fuel of [wake_loop] is never what ends it, once there is enough of
    it for the time left. *)
Lemma wake_loop_fuel E id max_wait interval : ∀ fuel fuel' elapsed s,
  0 < interval →
  max_wait - elapsed ≤ Z.of_nat fuel * interval →
  max_wait - elapsed ≤ Z.of_nat fuel' * interval →
  wake_loop E fuel id max_wait interval elapsed s
  = wake_loop E fuel' id max_wait interval elapsed s.
Proof.
  induction fuel as [|fuel IH]; intros fuel' elapsed s Hi Hf Hf'.
  - destruct fuel'; cbn [wake_loop];
      by replace (elapsed <? max_wait) with false
        by (symmetry; apply Z.ltb_ge; lia).
  - destruct fuel' as [|fuel'].
    + cbn [wake_loop];
        by replace (elapsed <? max_wait) with false
          by (symmetry; apply Z.ltb_ge; lia).
    + cbn [wake_loop]. destruct (elapsed <? max_wait); [|done].
      apply bind_ext. intros _ s1. unfold bindP.
      apply bind_ext. intros [vs|x] s2; [|done].
      apply bind_ext. intros l s3.
      destruct (find_online id l) as [[]|]; try done.
      apply IH; lia.
Qed.

Lemma polled_api_pos E interval s : api_pos (polled E interval s) = S (api_pos s).
Proof. done. Qed.

Lemma iter_polled_invariants E interval L k : ∀ s,
  0 ≤ interval →
  (∀ i, (i < k)%nat → Z.of_nat (latency (api_net E (api_pos s + i))) ≤ L) →
  let s' := Nat.iter k (polled E interval) s in
  _token_data s' = _token_data s
  ∧ api_pos s' = (api_pos s + k)%nat
  ∧ clock s' ≤ clock s + Z.of_nat k * (interval + L)
  ∧ slept_for s' = slept_for s + Z.of_nat k * interval
  ∧ count is_request s' = (count is_request s + k)%nat
  ∧ fs s' = fs s.
Proof.
  induction k as [|k IH]; intros s Hi Hlat; cbv zeta.
  { cbn. split_and!; try done; lia. }
  rewrite Nat.iter_succ_r.
  destruct (IH (polled E interval s) Hi) as (Htd & Hpos & Hclock & Hslept & Hreq & Hfs).
  { intros i Hlt. specialize (Hlat (S i) ltac:(lia)).
    rewrite polled_api_pos. by rewrite Nat.add_succ_r in Hlat. }
  pose proof (Hlat 0%nat ltac:(lia)) as Hl0. rewrite Nat.add_0_r in Hl0.
  rewrite Htd, Hpos, Hslept, Hreq, Hfs. split_and!.
  - done.
  - rewrite polled_api_pos. lia.
  - etrans; [exact Hclock|]. unfold polled, sent, slept. cbn. nia.
  - unfold polled, sent, slept, slept_for. cbn.
    rewrite !foldr_app. cbn.
    assert (Hacc : ∀ (l : list event) a,
              foldr (λ ev acc, match ev with EvSleep d => d + acc | _ => acc end) a l
              = foldr (λ ev acc, match ev with EvSleep d => d + acc | _ => acc end) 0 l
                + a).
    { induction l as [|ev l IHl]; intros a; cbn; [lia|].
      rewrite IHl. destruct ev; lia. }
    rewrite Hacc. lia.
  - unfold polled, sent, slept, count. cbn.
    rewrite !List.filter_app, !length_app. cbn. lia.
  - done.
Qed.

(** Polls that do not find the vehicle online. *)
Lemma wake_loop_polls E id max_wait interval td e L : ∀ k fuel elapsed s,
  _token_data s = Some td → expires_at td = Some e → held_token s ≠ JNull →
  0 ≤ interval → 0 ≤ L → (k ≤ fuel)%nat →
  (∀ i, (i < k)%nat → elapsed + Z.of_nat i * interval < max_wait) →
  (∀ i, (i < k)%nat → lists_not_online E id s i) →
  (∀ i, (i < k)%nat → Z.of_nat (latency (api_net E (api_pos s + i))) ≤ L) →
  clock s + Z.of_nat k * (interval + L) < e - 300 →
  wake_loop E fuel id max_wait interval elapsed s
  = wake_loop E (fuel - k) id max_wait interval
      (elapsed + Z.of_nat k * interval) (Nat.iter k (polled E interval) s).
Proof.
  induction k as [|k IH];
    intros fuel elapsed s Htd Hexp Hne Hi HL Hfuel Hwait Hans Hlat Hclock.
  { cbn [Nat.iter nat_rect]. rewrite Nat.sub_0_r. do 2 f_equal. lia. }
  destruct fuel as [|fuel]; [lia|].
  pose proof (Hwait 0%nat ltac:(lia)) as Hw0.
  destruct (Hans 0%nat ltac:(lia)) as (r & d & l & Hr & Hst & Hbody & Hresp & Hfind).
  pose proof (Hlat 0%nat ltac:(lia)) as Hl0.
  rewrite Nat.add_0_r in Hr, Hl0.
  cbn [wake_loop].
  replace (elapsed <? max_wait) with true by (symmetry; apply Z.ltb_lt; lia).
  rewrite (bind_ret _ _ _ _ _ (time_sleep_eval interval s Hi)).
  unfold bindP.
  rewrite (bind_ret _ _ _ _ _
             (list_vehicles_200 E (slept interval s) td e r (JObj d)
                Htd Hexp ltac:(cbn; nia) Hne Hr Hst Hbody)).
  cbn [py_get]. unfold dict_get. rewrite Hresp.
  unfold py_iter, bind at 1, ret at 1. cbv beta iota. rewrite Hfind.
  change (sent E "GET" "/api/1/vehicles" (held_token (slept interval s))
            (slept interval s)) with (polled E interval s).
  rewrite Nat.iter_succ_r.
  rewrite (IH fuel (elapsed + interval) (polled E interval s));
    [| exact Htd | exact Hexp | exact Hne | exact Hi | exact HL | lia | | | |].
  - replace (elapsed + interval + Z.of_nat k * interval)
      with (elapsed + Z.of_nat (S k) * interval) by lia.
    done.
  - intros i Hlt. specialize (Hwait (S i) ltac:(lia)). lia.
  - intros i Hlt. specialize (Hans (S i) ltac:(lia)).
    unfold lists_not_online in *. rewrite polled_api_pos.
    by rewrite Nat.add_succ_r in Hans.
  - intros i Hlt. specialize (Hlat (S i) ltac:(lia)).
    rewrite polled_api_pos. by rewrite Nat.add_succ_r in Hlat.
  - unfold polled, sent, slept. cbn. nia.
Qed.

(** A poll that finds the vehicle online. *)
Lemma wake_loop_online E id max_wait interval td e fuel elapsed s :
  _token_data s = Some td → expires_at td = Some e → held_token s ≠ JNull →
  0 ≤ interval → clock s + interval < e - 300 →
  elapsed < max_wait →
  lists_online E id s 0 →
  wake_loop E (S fuel) id max_wait interval elapsed s
  = (Ret (Ok true), polled E interval s).
Proof.
  intros Htd Hexp Hne Hi Hclock Hw (r & d & l & Hr & Hst & Hbody & Hresp & Hfind).
  rewrite Nat.add_0_r in Hr.
  cbn [wake_loop].
  replace (elapsed <? max_wait) with true by (symmetry; apply Z.ltb_lt; lia).
  rewrite (bind_ret _ _ _ _ _ (time_sleep_eval interval s Hi)).
  unfold bindP.
  rewrite (bind_ret _ _ _ _ _
             (list_vehicles_200 E (slept interval s) td e r (JObj d)
                Htd Hexp ltac:(cbn; lia) Hne Hr Hst Hbody)).
  cbn [py_get]. unfold dict_get. rewrite Hresp.
  unfold py_iter, bind at 1, ret at 1. cbv beta iota. by rewrite Hfind.
Qed.

(** X16. [wake_vehicle] ignores what the wake command came to and polls;
    when twelve polls in a row list the vehicle but not online, it returns
    [False]: 60 seconds of sleep and 12 requests after the wake command.
    No fuel beyond those twelve iterations changes anything. *)
Theorem wake_vehicle_times_out E id s v s0 td e L :
  _request E "POST" (wake_path id) s = (Ret v, s0) →
  _token_data s0 = Some td → expires_at td = Some e → held_token s0 ≠ JNull →
  0 ≤ L →
  (∀ i, (i < 12)%nat → lists_not_online E id s0 i) →
  (∀ i, (i < 12)%nat → Z.of_nat (latency (api_net E (api_pos s0 + i))) ≤ L) →
  clock s0 + 12 * (5 + L) < e - 300 →
  let s' := Nat.iter 12 (polled E 5) s0 in
  wake_vehicle E id s = (Ret (Ok false), s')
  ∧ slept_for s' = slept_for s0 + 60
  ∧ count is_request s' = (count is_request s0 + 12)%nat
  ∧ ∀ fuel, (12 ≤ fuel)%nat → wake_loop E fuel id 60 5 0 s0 = (Ret (Ok false), s').
Proof.
  intros Hpost Htd Hexp Hne HL Hans Hlat Hclock s'.
  assert (Hloop : ∀ fuel, (12 ≤ fuel)%nat →
            wake_loop E fuel id 60 5 0 s0 = (Ret (Ok false), s')).
  { intros fuel Hfuel.
    rewrite (wake_loop_polls E id 60 5 td e L 12 fuel 0 s0); try done; try lia.
    fold s'. change (0 + Z.of_nat 12 * 5) with 60.
    by destruct (fuel - 12)%nat. }
  destruct (iter_polled_invariants E 5 L 12 s0 ltac:(lia) Hlat)
    as (_ & _ & _ & Hslept & Hreq & _).
  fold s' in Hslept, Hreq.
  split_and!; [|exact Hslept|exact Hreq|exact Hloop].
  unfold wake_vehicle. fold (wake_path id).
  rewrite (bind_ret _ _ _ _ _ Hpost). cbv zeta. by apply Hloop.
Qed.

(** X17. When the polls list the vehicle but not online [k] times and
    online the next time, with [k < 12], [wake_vehicle] returns [True]
    after [k + 1] polls, 5 seconds apart. *)
Theorem wake_vehicle_wakes E id s v s0 td e L k :
  _request E "POST" (wake_path id) s = (Ret v, s0) →
  _token_data s0 = Some td → expires_at td = Some e → held_token s0 ≠ JNull →
  0 ≤ L → (k < 12)%nat →
  (∀ i, (i < k)%nat → lists_not_online E id s0 i) →
  lists_online E id s0 k →
  (∀ i, (i < k)%nat → Z.of_nat (latency (api_net E (api_pos s0 + i))) ≤ L) →
  clock s0 + Z.of_nat (S k) * (5 + L) < e - 300 →
  let s' := Nat.iter (S k) (polled E 5) s0 in
  wake_vehicle E id s = (Ret (Ok true), s')
  ∧ slept_for s' = slept_for s0 + 5 * Z.of_nat (S k).
Proof.
  intros Hpost Htd Hexp Hne HL Hk Hans Hon Hlat Hclock s'.
  destruct (iter_polled_invariants E 5 L k s0 ltac:(lia) Hlat)
    as (Htd' & Hpos & Hclock' & Hslept & _ & _).
  cbv zeta in Htd', Hpos, Hclock', Hslept.
  set (sk := Nat.iter k (polled E 5) s0) in *.
  assert (Hs' : s' = polled E 5 sk) by done.
  split.
  - unfold wake_vehicle. fold (wake_path id).
    rewrite (bind_ret _ _ _ _ _ Hpost). cbv zeta.
    rewrite (wake_loop_polls E id 60 5 td e L k 12 0 s0); try done; try lia.
    fold sk. replace (12 - k)%nat with (S (11 - k)) by lia. rewrite Hs'.
    apply (wake_loop_online E id 60 5 td e); try done; try lia.
    + by rewrite Htd'.
    + unfold held_token in *. by rewrite Htd'.
    + destruct Hon as (r & d & l & Hr & Hrest).
      exists r, d, l. split; [|exact Hrest].
      by rewrite Nat.add_0_r, Hpos.
  - rewrite Hs'. unfold polled, sent, slept, slept_for in *. cbn.
    rewrite !foldr_app. cbn.
    assert (Hacc : ∀ (l : list event) a,
              foldr (λ ev acc, match ev with EvSleep d => d + acc | _ => acc end) a l
              = foldr (λ ev acc, match ev with EvSleep d => d + acc | _ => acc end) 0 l
                + a).
    { induction l as [|ev l IHl]; intros a; cbn; [lia|].
      rewrite IHl. destruct ev; lia. }
    rewrite Hacc, Hslept. lia.
Qed.
(** Polls without a credential: a sleep each, nothing sent. *)
Lemma wake_loop_no_credential E id max_wait interval : ∀ k fuel elapsed s,
  _token_data s = None → 0 ≤ interval → (k ≤ fuel)%nat →
  (∀ i, (i < k)%nat → elapsed + Z.of_nat i * interval < max_wait) →
  wake_loop E fuel id max_wait interval elapsed s
  = wake_loop E (fuel - k) id max_wait interval
      (elapsed + Z.of_nat k * interval) (Nat.iter k (slept interval) s).
Proof.
  induction k as [|k IH]; intros fuel elapsed s Htd Hi Hfuel Hwait.
  { cbn [Nat.iter nat_rect]. rewrite Nat.sub_0_r. do 2 f_equal. lia. }
  destruct fuel as [|fuel]; [lia|].
  pose proof (Hwait 0%nat ltac:(lia)) as Hw0.
  cbn [wake_loop].
  replace (elapsed <? max_wait) with true by (symmetry; apply Z.ltb_lt; lia).
  rewrite (bind_ret _ _ _ _ _ (time_sleep_eval interval s Hi)).
  unfold bindP, list_vehicles.
  rewrite (bind_ret _ _ _ _ _
             (bind_ret _ _ _ _ _
                (request_no_credential E "GET" "/api/1/vehicles"
                   (slept interval s) Htd))).
  unfold ret at 1. cbv beta iota.
  unfold py_iter, bind at 1, ret at 1. cbv beta iota. cbn [find_online].
  rewrite Nat.iter_succ_r.
  rewrite (IH fuel (elapsed + interval) (slept interval s)); [|done|done|lia|].
  - replace (elapsed + interval + Z.of_nat k * interval)
      with (elapsed + Z.of_nat (S k) * interval) by lia.
    done.
  - intros i Hlt. specialize (Hwait (S i) ltac:(lia)). lia.
Qed.

(** X18. Without a credential nothing is sent: [list_vehicles] returns
    [[]] and [get_vehicle_data] returns [None] at once, and [wake_vehicle]
    returns [False] after its twelve sleeps of 5 seconds, which it takes all
    the same. *)
Theorem methods_without_credential E id s :
  _token_data s = None →
  list_vehicles E s = (Ret (Ok (JArr [])), s)
  ∧ get_vehicle_data E id s = (Ret (Ok JNull), s)
  ∧ wake_vehicle E id s = (Ret (Ok false), Nat.iter 12 (slept 5) s)
  ∧ api_pos (Nat.iter 12 (slept 5) s) = api_pos s
  ∧ clock (Nat.iter 12 (slept 5) s) = clock s + 60.
Proof.
  intros Htd. split_and!.
  - unfold list_vehicles.
    by rewrite (bind_ret _ _ _ _ _ (request_no_credential E _ _ s Htd)).
  - unfold get_vehicle_data.
    by rewrite (bind_ret _ _ _ _ _ (request_no_credential E _ _ s Htd)).
  - unfold wake_vehicle.
    rewrite (bind_ret _ _ _ _ _ (request_no_credential E _ _ s Htd)).
    cbv zeta.
    rewrite (wake_loop_no_credential E id 60 5 12 12 0 s); try done; try lia.
  - done.
  - cbn. lia.
Qed.

(** X19. [wake_vehicle] on a listing it cannot read, at its first poll.  A
    [response] that is [null], a number or a boolean is a [TypeError] of
    the [for] loop; a body that is not an object, or a vehicle in the list
    that is not one, is an [AttributeError] of [.get].  Nothing in
    [wake_vehicle] catches either. *)
Theorem wake_vehicle_bad_listing E id s v0 s0 td e r v :
  _request E "POST" (wake_path id) s = (Ret v0, s0) →
  _token_data s0 = Some td → expires_at td = Some e → held_token s0 ≠ JNull →
  clock s0 + 5 < e - 300 →
  result (api_net E (api_pos s0)) = Answered r →
  status_code r = 200 → body r = Some v →
  (∀ d x, v = JObj d → d !! "response" = Some x →
     x = JNull ∨ (∃ n, x = JNum n) ∨ (∃ b, x = JBool b) →
     wake_vehicle E id s = (Raise TypeError, polled E 5 s0))
  ∧ (v ≠ JNull → (∀ d, v ≠ JObj d) →
       wake_vehicle E id s = (Ret (Err AttributeError), polled E 5 s0))
  ∧ (∀ d l, v = JObj d → d !! "response" = Some (JArr l) →
       find_online id l = Err AttributeError →
       wake_vehicle E id s = (Ret (Err AttributeError), polled E 5 s0)).
Proof.
  intros Hpost Htd Hexp Hne Hclock Hr Hst Hbody.
  assert (Hwake : wake_vehicle E id s =
            (let! r := ret (match v with
                            | JNull => Ok (JArr [])
                            | _ => py_get v "response" (JArr [])
                            end) in
             match r with
             | Ok vehicles =>
                 let! vehicles := py_iter vehicles in
                 match find_online id vehicles with
                 | Err e => ret (Err e)
                 | Ok true => ret (Ok true)
                 | Ok false => wake_loop E 11 id 60 5 (0 + 5)
                 end
             | Err e => ret (Err e)
             end) (polled E 5 s0)).
  { unfold wake_vehicle. fold (wake_path id).
    rewrite (bind_ret _ _ _ _ _ Hpost). cbv zeta.
    cbn [wake_loop]. change (0 <? 60) with true. cbv iota.
    rewrite (bind_ret _ _ _ _ _ (time_sleep_eval 5 s0 ltac:(lia))).
    unfold bindP.
    by rewrite (bind_ret _ _ _ _ _
                  (list_vehicles_200 E (slept 5 s0) td e r v
                     Htd Hexp ltac:(cbn; lia) Hne Hr Hst Hbody)). }
  rewrite Hwake. split_and!.
  - intros d x -> Hx Hcase. cbn. unfold dict_get. rewrite Hx.
    by destruct Hcase as [->|[[n ->]|[b ->]]].
  - intros Hnull Hobj. destruct v; try done. by destruct (Hobj m).
  - intros d l -> Hx Hfind. cbn. unfold dict_get. rewrite Hx.
    unfold py_iter, bind, ret. by rewrite Hfind.
Qed.
(** ** [SleepTracker] in use *)

Lemma tracker_counter calls :
  _consecutive_errors (foldl run_tracker_call SleepTracker_init calls)
  = Z.of_nat (errors_since_update (rev calls)).
Proof.
  induction calls as [|c calls IH] using rev_ind; [done|].
  rewrite foldl_app, rev_app_distr. cbn [foldl rev app].
  destruct c as [st| |now]; cbn; [done| |done].
  rewrite IH. lia.
Qed.

(** X20. Whatever calls a [SleepTracker] has received since it was
    created, its error counter is the number of [record_error] since the
    last [update_state]; a fetch does not reset it.  So the reduced poll
    rate is in force exactly when five errors or more have been recorded
    since the last observation of the vehicle, and never in a run where
    each error was recorded right after an observation. *)
Theorem tracker_counts_errors_since_update cfg calls :
  let t := foldl run_tracker_call SleepTracker_init calls in
  _consecutive_errors t = Z.of_nat (errors_since_update (rev calls))
  ∧ ((5 ≤ errors_since_update (rev calls))%nat →
       get_poll_interval cfg t
       = Z.max (poll_interval_seconds cfg) (sleep_poll_interval_seconds cfg))
  ∧ ((errors_since_update (rev calls) < 5)%nat →
       get_poll_interval cfg t
       = if bool_decide (_last_known_state t ∈ ["asleep"; "offline"; "unknown"])
         then sleep_poll_interval_seconds cfg
         else poll_interval_seconds cfg)
  ∧ (∀ observations,
       calls = flat_map (λ st, [UpdateState st; RecordError]) observations →
       _consecutive_errors t ≤ 1).
Proof.
  intros t. pose proof (tracker_counter calls) as Hc. fold t in Hc.
  split_and!.
  - exact Hc.
  - intros H. unfold get_poll_interval. rewrite Hc.
    by replace (_ >=? 5) with true by (symmetry; apply Z.geb_le; lia).
  - intros H. unfold get_poll_interval. rewrite Hc.
    by replace (_ >=? 5) with false
      by (symmetry; rewrite Z.geb_leb; apply Z.leb_gt; lia).
  - intros obs Hobs. rewrite Hc. clear Hc t. subst calls.
    induction obs as [|st obs IH] using rev_ind; [done|].
    rewrite flat_map_app, rev_app_distr. cbn. lia.
Qed.

(** X21. What is fetched and how often it is polled are decided by two
    different tests of the state.  Data are fetched for [online], and for
    [asleep] when the exporter may wake the vehicle, and for nothing else.
    A state outside [online], [asleep], [offline], [unknown] is therefore
    polled at the normal rate without ever being fetched, and an [asleep]
    vehicle that is woken at every poll is polled at the sleep rate. *)
Theorem fetch_and_poll_rate cfg st t :
  (should_fetch_data cfg st t = true
   ↔ st = "online" ∨ (st = "asleep" ∧ wake_on_poll cfg = true))
  ∧ (st ∉ ["online"; "asleep"; "offline"; "unknown"] →
       should_fetch_data cfg st t = false
       ∧ get_poll_interval cfg (update_state st t) = poll_interval_seconds cfg)
  ∧ (st = "asleep" → wake_on_poll cfg = true →
       should_fetch_data cfg st t = true
       ∧ get_poll_interval cfg (update_state st t)
         = sleep_poll_interval_seconds cfg).
Proof.
  assert (Hiff : should_fetch_data cfg st t = true
                 ↔ st = "online" ∨ (st = "asleep" ∧ wake_on_poll cfg = true)).
  { unfold should_fetch_data.
    destruct (String.eqb_spec st "online") as [->|Hon]; [by split; auto|].
    destruct (String.eqb_spec st "asleep") as [->|Has].
    - destruct (wake_on_poll cfg); split; auto.
      intros [|[]]; done.
    - destruct (String.eqb st "offline"); split; try done.
      all: intros [|[]]; done. }
  split_and!; [exact Hiff| |].
  - intros Hnot. split.
    + apply not_true_is_false. intros Hf.
      apply Hiff in Hf as [->|[-> _]]; apply Hnot; rewrite !elem_of_cons; auto.
    + unfold get_poll_interval, update_state. cbn.
      rewrite bool_decide_eq_false_2; [done|].
      intros Hin. apply Hnot. rewrite elem_of_cons. by right.
  - intros -> Hw. split; [apply Hiff; auto|]. done.
Qed.
(** ** The further properties at work on the examples *)

Lemma load_token_outcome_witness :
  (load_result (load_token Demo.quiet Cases.logged_out) = Ret true
   ∧ load_held (load_token Demo.quiet Cases.logged_out) = JObj Demo.td)
  ∧ (load_result (load_token Demo.quiet (Cases.finding "null")) = Ret true
     ∧ load_held (load_token Demo.quiet (Cases.finding "null")) = JNull)
  ∧ load_held (load_token Demo.quiet (Cases.finding "[]")) = JArr []
  ∧ load_result (load_token Demo.quiet (Cases.finding "{")) = Ret false
  ∧ load_result (load_token Demo.quiet (Cases.finding Cases.stray_byte))
    = Raise UnicodeDecodeError.
Proof.
  split; [|split; [|split; [|split]]].
  - destruct (load_token_outcome Demo.quiet Cases.logged_out)
      as (_ & Htrue & Hheld & _).
    split.
    + apply Htrue. exists (PyJson.json_dump Demo.td), (JObj Demo.td).
      split_and!; vm_compute; reflexivity.
    + apply (Hheld (PyJson.json_dump Demo.td)); vm_compute; reflexivity.
  - destruct (load_token_outcome Demo.quiet (Cases.finding "null"))
      as (_ & Htrue & Hheld & _).
    split.
    + apply Htrue. exists "null", JNull. split_and!; vm_compute; reflexivity.
    + apply (Hheld "null"); vm_compute; reflexivity.
  - destruct (load_token_outcome Demo.quiet (Cases.finding "[]"))
      as (_ & _ & Hheld & _).
    apply (Hheld "[]"); vm_compute; reflexivity.
  - destruct (load_token_outcome Demo.quiet (Cases.finding "{"))
      as (_ & _ & _ & Hfalse & _).
    apply Hfalse. right. right. exists "{". split; [vm_compute; reflexivity|].
    left. vm_compute. reflexivity.
  - destruct (load_token_outcome Demo.quiet (Cases.finding Cases.stray_byte))
      as (_ & _ & _ & _ & Hraise & _).
    apply Hraise. split; [discriminate|]. split; [discriminate|].
    exists Cases.stray_byte. split_and!; vm_compute; reflexivity.
Defined.

Lemma save_token_returns_witness :
  ∃ s', save_token Demo.quiet Demo.td' Demo.due = (Ret tt, s')
        ∧ fs s' = <[token_file_path Demo.cfg := PyJson.json_dump Demo.td']>
                    (fs Demo.due)
        ∧ io_pos s' = 5%nat.
Proof.
  destruct (save_token_returns Demo.quiet Demo.td' Demo.due) as [Hiff Heff].
  destruct (proj2 Hiff) as [s' Hrun].
  { split; vm_compute; reflexivity. }
  destruct (Heff s' Hrun) as (Hfs & _ & Hio & _).
  exists s'. split; [exact Hrun|]. split; [exact Hfs | exact Hio].
Defined.


Lemma refresh_access_token_raises_witness :
  ∃ e s', refresh_access_token Cases.granting_disk_full Demo.due = (Raise e, s')
    ∧ token_pos s' = 1%nat
    ∧ e ≠ RequestException
    ∧ _token_data s' = Some Demo.td.
Proof.
  destruct (refresh_access_token_raises Cases.granting_disk_full Demo.due)
    as [Hkeep Hraise].
  destruct (Hraise Demo.td (JStr "rt-1") 0%nat Cases.grant_data (JStr "at-2")
              (JStr "rt-2") 3600) as (e & s' & Hrun & Hpos).
  - reflexivity.
  - vm_compute. reflexivity.
  - cbn. lia.
  - intros k Hk. cbn in Hk. lia.
  - exists (Cases.ok Demo.grant). split_and!; vm_compute; reflexivity.
  - vm_compute. reflexivity.
  - destruct (Hkeep e s' Hrun) as (He & Htd & _).
    exists e, s'. split; [exact Hrun|]. split; [exact Hpos|].
    split; [exact He | exact Htd].
Defined.


Lemma exchange_code_raises_witness :
  exchange_code Demo.quiet "code-1" Cases.logged_out
  = (Raise RequestException, posted Demo.quiet (JStr "code-1") Cases.logged_out)
  ∧ _token_data (posted Demo.quiet (JStr "code-1") Cases.logged_out) = None.
Proof.
  destruct (exchange_code_raises Demo.quiet "code-1" Cases.logged_out)
    as [Hdown Hkeep].
  pose proof (Hdown I) as Hrun.
  split; [exact Hrun|].
  destruct (Hkeep _ _ Hrun) as (Htd & _). exact Htd.
Defined.

Lemma expires_at_edges_witness :
  is_token_valid Cases.no_expiry = (Ret false, Cases.no_expiry)
  ∧ _request Demo.quiet "GET" Demo.list_vehicles Cases.bad_expiry
    = (Raise TypeError, Cases.bad_expiry)
  ∧ is_token_valid Cases.hurried = (Ret false, Cases.hurried).
Proof.
  split_and!.
  - destruct (expires_at_edges Demo.quiet Cases.no_expiry
                (delete "expires_at" Demo.td) eq_refl) as (H & _).
    apply H; [vm_compute; reflexivity | vm_compute; discriminate].
  - destruct (expires_at_edges Demo.quiet Cases.bad_expiry
                (<["expires_at" := JStr "soon"]> Demo.td) eq_refl) as (_ & H & _).
    destruct (H (JStr "soon")) as (_ & _ & Hreq);
      [vm_compute; reflexivity | reflexivity |].
    apply Hreq.
  - destruct (expires_at_edges Demo.quiet Cases.hurried Cases.short_lived eq_refl)
      as (_ & _ & H).
    apply (H Cases.grant_data (JStr "at-2") (JStr "rt-2") 300 1700000000);
      [reflexivity | lia | vm_compute; discriminate].
Defined.

Lemma request_terminal_status_witness :
  _request Cases.not_found "GET" Demo.list_vehicles Demo.fresh
  = (Ret JNull,
     sent Cases.not_found "GET" Demo.list_vehicles (JStr "at-1") Demo.fresh).
Proof.
  destruct (request_terminal_status Cases.not_found "GET" Demo.list_vehicles
              Demo.fresh (JStr "at-1") Demo.fresh
              {| status_code := 404; body := None; retry_after := None |})
    as [H _].
  - vm_compute. reflexivity.
  - discriminate.
  - reflexivity.
  - apply H. reflexivity.
Defined.



Lemma request_retryable_backoff_witness :
  ∃ s', _request Cases.unreachable "GET" Demo.list_vehicles Demo.fresh
        = (Ret JNull, s')
    ∧ trace s' =
        [EvRequest "GET" Demo.list_vehicles (JStr "at-1"); EvSleep 1;
         EvRequest "GET" Demo.list_vehicles (JStr "at-1"); EvSleep 2;
         EvRequest "GET" Demo.list_vehicles (JStr "at-1")].
Proof.
  destruct (request_retryable_backoff Cases.unreachable "GET" Demo.list_vehicles
              Demo.td 1700003600 0 Demo.fresh) as [_ H].
  - reflexivity.
  - vm_compute. reflexivity.
  - vm_compute. discriminate.
  - apply H.
    + intros i Hi. do 3 (destruct i as [|i]; [reflexivity|]). lia.
    + intros i Hi. do 3 (destruct i as [|i]; [vm_compute; discriminate|]). lia.
    + vm_compute. reflexivity.
Defined.

Lemma request_raises_no_request_exception_witness :
  (_request Cases.http_date "GET" Demo.list_vehicles Demo.fresh).1
  = Raise ValueError
  ∧ ValueError ≠ RequestException.
Proof.
  split; [vm_compute; reflexivity|].
  apply (request_raises_no_request_exception Cases.http_date "GET"
           Demo.list_vehicles Demo.fresh ValueError
           (sent Cases.http_date "GET" Demo.list_vehicles (JStr "at-1") Demo.fresh)).
  vm_compute. reflexivity.
Defined.

Lemma vehicle_listing_shapes_witness :
  (list_vehicles Cases.listed Demo.fresh).1
  = Ret (Ok (JArr [Cases.vehicle "online"]))
  ∧ (list_vehicles Cases.bare_list Demo.fresh).1 = Ret (Err AttributeError)
  ∧ (get_vehicle_data Cases.bare_list 7 Demo.fresh).1 = Ret (Err AttributeError).
Proof.
  destruct (vehicle_listing_shapes Cases.listed Demo.fresh Demo.td 1700003600
              (Cases.ok Demo.vehicles) Demo.vehicles 7)
    as (_ & _ & Hfield & _).
  { reflexivity. }
  { vm_compute. reflexivity. }
  { vm_compute. reflexivity. }
  { vm_compute. discriminate. }
  { reflexivity. }
  { reflexivity. }
  { reflexivity. }
  destruct (vehicle_listing_shapes Cases.bare_list Demo.fresh Demo.td 1700003600
              (Cases.ok (JArr [])) (JArr []) 7)
    as (_ & _ & _ & Hbare).
  { reflexivity. }
  { vm_compute. reflexivity. }
  { vm_compute. reflexivity. }
  { vm_compute. discriminate. }
  { reflexivity. }
  { reflexivity. }
  { reflexivity. }
  destruct (Hfield (Cases.listing_of (JArr [Cases.vehicle "online"]))
              (JArr [Cases.vehicle "online"]))
    as [Hlist _].
  { vm_compute. reflexivity. }
  { vm_compute. reflexivity. }
  destruct Hbare as [Hl Hd]; [discriminate | intros d; discriminate |].
  split; [by rewrite Hlist|]. split; [by rewrite Hl | by rewrite Hd].
Defined.

Lemma wake_vehicle_times_out_witness :
  wake_vehicle Cases.sleeper 7 Demo.fresh
  = (Ret (Ok false), Nat.iter 12 (polled Cases.sleeper 5) (Cases.commanded Cases.sleeper))
  ∧ slept_for (Nat.iter 12 (polled Cases.sleeper 5) (Cases.commanded Cases.sleeper))
    = slept_for (Cases.commanded Cases.sleeper) + 60.
Proof.
  destruct (wake_vehicle_times_out Cases.sleeper 7 Demo.fresh Cases.woken
              (Cases.commanded Cases.sleeper) Demo.td 1700003600 0)
    as (Hrun & Hslept & _).
  - vm_compute. reflexivity.
  - reflexivity.
  - vm_compute. reflexivity.
  - vm_compute. discriminate.
  - lia.
  - intros i Hi.
    exists (Cases.ok (Cases.listing "asleep")),
      (Cases.listing_of (JArr [Cases.vehicle "asleep"])),
      [Cases.vehicle "asleep"].
    do 12 (destruct i as [|i]; [split_and!; vm_compute; reflexivity|]). lia.
  - intros i Hi.
    do 12 (destruct i as [|i]; [vm_compute; discriminate|]). lia.
  - vm_compute. reflexivity.
  - split; [exact Hrun | exact Hslept].
Defined.

Lemma wake_vehicle_wakes_witness :
  wake_vehicle Cases.waking 7 Demo.fresh
  = (Ret (Ok true), Nat.iter 3 (polled Cases.waking 5) (Cases.commanded Cases.waking))
  ∧ slept_for (Nat.iter 3 (polled Cases.waking 5) (Cases.commanded Cases.waking))
    = slept_for (Cases.commanded Cases.waking) + 5 * 3.
Proof.
  apply (wake_vehicle_wakes Cases.waking 7 Demo.fresh Cases.woken
           (Cases.commanded Cases.waking) Demo.td 1700003600 0 2).
  - vm_compute. reflexivity.
  - reflexivity.
  - vm_compute. reflexivity.
  - vm_compute. discriminate.
  - lia.
  - lia.
  - intros i Hi.
    exists (Cases.ok (Cases.listing "asleep")),
      (Cases.listing_of (JArr [Cases.vehicle "asleep"])),
      [Cases.vehicle "asleep"].
    do 2 (destruct i as [|i]; [split_and!; vm_compute; reflexivity|]). lia.
  - exists (Cases.ok (Cases.listing "online")),
      (Cases.listing_of (JArr [Cases.vehicle "online"])),
      [Cases.vehicle "online"].
    split_and!; vm_compute; reflexivity.
  - intros i Hi.
    do 2 (destruct i as [|i]; [vm_compute; discriminate|]). lia.
  - vm_compute. reflexivity.
Defined.

Lemma methods_without_credential_witness :
  list_vehicles Demo.revoked Cases.logged_out
  = (Ret (Ok (JArr [])), Cases.logged_out)
  ∧ wake_vehicle Demo.revoked 7 Cases.logged_out
    = (Ret (Ok false), Nat.iter 12 (slept 5) Cases.logged_out).
Proof.
  destruct (methods_without_credential Demo.revoked 7 Cases.logged_out eq_refl)
    as (Hlist & _ & Hwake & _).
  split; [exact Hlist | exact Hwake].
Defined.

Lemma wake_vehicle_bad_listing_witness :
  wake_vehicle Cases.null_listing 7 Demo.fresh
  = (Raise TypeError, polled Cases.null_listing 5 (Cases.commanded Cases.null_listing)).
Proof.
  destruct (wake_vehicle_bad_listing Cases.null_listing 7 Demo.fresh Cases.woken
              (Cases.commanded Cases.null_listing) Demo.td 1700003600
              (Cases.ok (JObj (Cases.listing_of JNull)))
              (JObj (Cases.listing_of JNull)))
    as (Hnull & _).
  - vm_compute. reflexivity.
  - reflexivity.
  - vm_compute. reflexivity.
  - vm_compute. discriminate.
  - vm_compute. reflexivity.
  - vm_compute. reflexivity.
  - reflexivity.
  - reflexivity.
  - apply (Hnull (Cases.listing_of JNull) JNull).
    + reflexivity.
    + vm_compute. reflexivity.
    + left. reflexivity.
Defined.

Lemma tracker_counts_errors_since_update_witness :
  get_poll_interval Demo.cfg
    (foldl run_tracker_call SleepTracker_init Cases.bumpy) = 660
  ∧ _consecutive_errors
      (foldl run_tracker_call SleepTracker_init
         (flat_map (λ st, [UpdateState st; RecordError]) Cases.six_nights))
    ≤ 1.
Proof.
  split.
  - destruct (tracker_counts_errors_since_update Demo.cfg Cases.bumpy)
      as (_ & Hmany & _).
    rewrite Hmany; [reflexivity|]. cbn. lia.
  - destruct (tracker_counts_errors_since_update Demo.cfg
                (flat_map (λ st, [UpdateState st; RecordError]) Cases.six_nights))
      as (_ & _ & _ & Hobs).
    apply (Hobs Cases.six_nights). reflexivity.
Defined.

Lemma fetch_and_poll_rate_witness :
  should_fetch_data Demo.cfg "waking" Demo.online = false
  ∧ get_poll_interval Demo.cfg (update_state "waking" Demo.online) = 300.
Proof.
  destruct (fetch_and_poll_rate Demo.cfg "waking" Demo.online) as (_ & H & _).
  apply H. intros Hin.
  repeat (apply elem_of_cons in Hin as [Hin|Hin]; [discriminate Hin|]).
  by apply elem_of_nil in Hin.
Defined.

Lemma load_token_after_save_witness :
  ∃ s1, save_token Demo.quiet Demo.td' Demo.due = (Ret tt, s1)
    ∧ load_result (load_token Demo.quiet (set_token_data None s1)) = Ret true
    ∧ load_held (load_token Demo.quiet (set_token_data None s1)) = JObj Demo.td'.
Proof.
  exists (saved Demo.quiet Demo.td' Demo.due).
  assert (Hsave : save_token Demo.quiet Demo.td' Demo.due
                  = (Ret tt, saved Demo.quiet Demo.td' Demo.due))
    by (vm_compute; reflexivity).
  split; [exact Hsave|].
  destruct (load_token_after_save Demo.quiet Demo.td' Demo.due
              (saved Demo.quiet Demo.td' Demo.due)
              (set_token_data None (saved Demo.quiet Demo.td' Demo.due))
              Hsave eq_refl eq_refl) as [Hparsed _].
  apply Hparsed. vm_compute. reflexivity.
Defined.

(** ** The properties at work on the examples *)

Import Demo.

Lemma access_token_refresh_margin_witness :
  access_token quiet fresh = (Ret (JStr "at-1"), fresh)
  ∧ count is_refresh (access_token quiet due).2 = 1%nat.
Proof.
  destruct (access_token_refresh_margin quiet fresh td 1700003600
              eq_refl ltac:(vm_compute; reflexivity)) as [Hvalid _].
  destruct (access_token_refresh_margin quiet due td 1700003600
              eq_refl ltac:(vm_compute; reflexivity)) as [_ Hdue].
  split.
  - apply Hvalid. reflexivity.
  - apply Hdue. vm_compute. discriminate.
Defined.

Lemma access_token_stale_without_refresh_token_witness :
  access_token quiet stale = (Ret (JStr "at-1"), log_event EvRefresh stale).
Proof.
  apply (access_token_stale_without_refresh_token quiet stale td_no_refresh
           1700003600 (JStr "at-1")).
  - reflexivity.
  - vm_compute. reflexivity.
  - vm_compute. discriminate.
  - vm_compute. reflexivity.
  - vm_compute. reflexivity.
Defined.

(** C2 as it is stated fails: the write of the temporary file fails, the
    clean-up fails too ([except OSError: pass]), the save raises, and the
    temporary file, which did not exist before, is left behind with the one
    character that reached it. *)
Lemma save_token_leaves_temporary_file :
  fs due !! "/data/tokens/tmp1.tmp" = None
  ∧ (save_token read_only td' due).1 = Raise OSError
  ∧ fs (save_token read_only td' due).2 !! "/data/tokens/tmp1.tmp" = Some "{".
Proof. vm_compute. done. Qed.

Lemma save_token_failure_witness :
  save_step_fails disk_full (io_pos due) = true
  ∧ ∃ e s', save_token disk_full td' due = (Raise e, s')
            ∧ _token_data s' = Some td
            ∧ fs s' !! token_file_path (config disk_full)
              = Some (PyJson.json_dump td)
            ∧ fs s' = fs due.
Proof.
  split; [reflexivity|].
  destruct (save_token_failure disk_full td' due) as [Hraise Hkeep].
  destruct (Hraise eq_refl) as (e & s' & Hrun).
  destruct (Hkeep e s' Hrun) as (Htd & Hfile & Hclean).
  exists e, s'. split; [exact Hrun|]. split; [exact Htd|].
  split; [apply Hfile; reflexivity|].
  apply Hclean. reflexivity.
Defined.

Lemma refresh_partial_answer_not_saved_witness :
  partial_answer (token_net partial_refresh 1) = true
  ∧ fs (refresh_access_token partial_refresh due).2 = fs due
  ∧ count is_save (refresh_access_token partial_refresh due).2 = count is_save due
  ∧ io_pos (refresh_access_token partial_refresh due).2 = io_pos due.
Proof.
  split; [reflexivity|].
  apply (refresh_partial_answer_not_saved partial_refresh due 1).
  - cbn. lia.
  - intros k Hk. cbn in Hk. assert (k = 0%nat) as -> by lia. reflexivity.
  - reflexivity.
Defined.

Lemma refresh_exhausted_discards_credential_witness :
  ∃ s', refresh_access_token token_endpoint_down due = (Ret tt, s')
    ∧ _token_data s' = None
    ∧ access_token token_endpoint_down
        (foldl (run_call token_endpoint_down) s'
           [ReadAccessToken; CallRequest "GET" list_vehicles;
            CallRefreshAccessToken; ReadIsTokenValid])
      = (Ret JNull,
         foldl (run_call token_endpoint_down) s'
           [ReadAccessToken; CallRequest "GET" list_vehicles;
            CallRefreshAccessToken; ReadIsTokenValid]).
Proof.
  destruct (refresh_exhausted_discards_credential token_endpoint_down due td
              (JStr "rt-1")) as (s' & Hrun & Hnone & _ & Hafter).
  - reflexivity.
  - vm_compute. reflexivity.
  - intros k _. by destruct k as [|[|[|[|[|k]]]]].
  - exists s'. split; [exact Hrun|]. split; [exact Hnone|].
    apply (Hafter [ReadAccessToken; CallRequest "GET" list_vehicles;
                   CallRefreshAccessToken; ReadIsTokenValid]).
Defined.

(** C5 as it is stated fails: the first attempt gets a 401 and the refresh
    it forces runs out of attempts, so the credential is gone; the second
    attempt finds no token and the request ends with [None].  One request
    was sent in all: the call was not retried, although the API would have
    answered 200. *)
Lemma request_401_without_retry :
  (access_token token_endpoint_down fresh).1 = Ret (JStr "at-1")
  ∧ result (api_net token_endpoint_down 0) = Answered unauthorized
  ∧ (_request token_endpoint_down "GET" list_vehicles fresh).1 = Ret JNull
  ∧ count is_request (_request token_endpoint_down "GET" list_vehicles fresh).2
    = 1%nat
  ∧ _token_data (_request token_endpoint_down "GET" list_vehicles fresh).2 = None.
Proof. vm_compute. done. Qed.

(** The scenario of the design document: 401, then 200 once the token has
    been refreshed.  One refresh, two requests, the body of the second. *)
Example revoked_token_scenario :
  (_request revoked "GET" list_vehicles fresh).1 = Ret vehicles
  ∧ count is_refresh (_request revoked "GET" list_vehicles fresh).2 = 1%nat
  ∧ count is_request (_request revoked "GET" list_vehicles fresh).2 = 2%nat
  ∧ List.filter (λ ev, match ev with EvSleep _ => true | _ => false end)
      (trace (_request revoked "GET" list_vehicles fresh).2) = [].
Proof. vm_compute. done. Qed.

Lemma request_401_witness :
  (∃ out s3,
     refresh_access_token revoked
       (sent revoked "GET" list_vehicles (JStr "at-1") fresh) = (out, s3)
     ∧ count is_refresh s3 = 1%nat
     ∧ count is_request s3 = 1%nat
     ∧ match out with
       | Raise x => _request revoked "GET" list_vehicles fresh = (Raise x, s3)
       | Ret _ =>
           _request revoked "GET" list_vehicles fresh
           = request_loop revoked "GET" list_vehicles 3 [1; 2]%nat 1 s3
           ∧ (_token_data s3 = None →
              _request revoked "GET" list_vehicles fresh = (Ret JNull, s3))
           ∧ (∀ tok' s4,
                access_token revoked s3 = (Ret tok', s4) → tok' ≠ JNull →
                ∃ evs, trace (_request revoked "GET" list_vehicles fresh).2
                       = (trace s4 ++ EvRequest "GET" list_vehicles tok' :: evs)%list)
       end)
  ∧ request_loop late_401 "GET" list_vehicles 3 [1; 2]%nat 2 (set_api_pos 1 fresh)
    = (Ret JNull,
       sent late_401 "GET" list_vehicles (JStr "at-1") (set_api_pos 1 fresh)).
Proof.
  split.
  - apply (proj1 (request_401 revoked "GET" list_vehicles)
             fresh (JStr "at-1") fresh unauthorized).
    + vm_compute. reflexivity.
    + discriminate.
    + reflexivity.
    + reflexivity.
  - apply (proj2 (request_401 late_401 "GET" list_vehicles)
             1%nat [2%nat] 2 (set_api_pos 1 fresh) (JStr "at-1")
             (set_api_pos 1 fresh) unauthorized).
    + discriminate.
    + vm_compute. reflexivity.
    + discriminate.
    + reflexivity.
    + reflexivity.
Defined.


Lemma get_poll_interval_cases_witness :
  get_poll_interval cfg_slow failing = 900
  ∧ get_poll_interval cfg_slow asleep = 660
  ∧ get_poll_interval cfg_slow online = 900
  ∧ get_poll_interval cfg failing = 660
  ∧ get_poll_interval cfg online = 300.
Proof.
  destruct (get_poll_interval_cases cfg_slow failing) as (Hslow & _).
  destruct (get_poll_interval_cases cfg_slow asleep) as (_ & Hsleep & _).
  destruct (get_poll_interval_cases cfg_slow online) as (_ & _ & Hon & _).
  destruct (get_poll_interval_cases cfg failing) as (Hmax & _).
  destruct (get_poll_interval_cases cfg online) as (_ & _ & Hnormal & _).
  split_and!.
  - apply Hslow. cbn. lia.
  - apply Hsleep; [cbn; lia | cbn; set_solver].
  - apply Hon; [cbn; lia | reflexivity].
  - apply Hmax. cbn. lia.
  - apply Hnormal; [cbn; lia | reflexivity].
Defined.
